(** * Papyrus Notes API: a shallow embedding of [main.py]

    The handlers of [main.py] are embedded as functions in a state and
    exception monad over the process-wide store handle [db].  The store
    (pymongo behind [database.py]) and the [Note] schema ([schemas.py])
    are not part of [main.py]; they are modelled in the modules [Store]
    and [Schema], and every handler is written against them the way the
    Python code is. *)

From Stdlib Require Import ZArith Ascii String List Bool Lia.
From stdpp Require Import base option numbers list strings gmap sorting.

Local Open Scope string_scope.
Local Open Scope Z_scope.

(** ** Python values *)

(** The values a stored document or a JSON body holds: [None], booleans,
    integers, strings, datetimes (milliseconds since the epoch, the way
    BSON keeps them) and arrays of strings.  Text is a [string] of the
    bytes of its UTF-8 encoding: a character takes one to four of them. *)
Inductive value : Type :=
| VNull
| VBool (b : bool)
| VInt (n : Z)
| VStr (s : string)
| VDate (millis : Z)
| VList (items : list string).

(** Python truthiness, the test behind [if x:] and [not x]. *)
Definition truthy (v : value) : bool :=
  match v with
  | VNull => false
  | VBool b => b
  | VInt n => negb (n =? 0)
  | VStr s => negb (String.eqb s "")
  | VDate _ => true
  | VList l => negb (Nat.eqb (List.length l) 0)
  end.

(** [bool] is a subclass of [int]: [True] is [1] and [False] is [0]. *)
Definition as_num (v : value) : option Z :=
  match v with
  | VBool b => Some (if b then 1 else 0)
  | VInt n => Some n
  | _ => None
  end.

Fixpoint list_eqb (l m : list string) : bool :=
  match l, m with
  | [], [] => true
  | x :: l', y :: m' => String.eqb x y && list_eqb l' m'
  | _, _ => false
  end.

(** [l < m] on lists of strings: the first differing items decide,
    otherwise the shorter list is the smaller. *)
Fixpoint list_ltb (l m : list string) : bool :=
  match l, m with
  | [], [] => false
  | [], _ :: _ => true
  | _ :: _, [] => false
  | x :: l', y :: m' => if String.eqb x y then list_ltb l' m' else String.ltb x y
  end.

(** Python [a == b]. *)
Definition py_eq (a b : value) : bool :=
  match as_num a, as_num b with
  | Some x, Some y => x =? y
  | None, None =>
      match a, b with
      | VNull, VNull => true
      | VStr s, VStr t => String.eqb s t
      | VDate x, VDate y => x =? y
      | VList l, VList m => list_eqb l m
      | _, _ => false
      end
  | _, _ => false
  end.

(** Python [a < b]; [None] is the [TypeError] of two values that have no
    order between them. *)
Definition py_lt (a b : value) : option bool :=
  match as_num a, as_num b with
  | Some x, Some y => Some (x <? y)
  | None, None =>
      match a, b with
      | VStr s, VStr t => Some (String.ltb s t)
      | VDate x, VDate y => Some (x <? y)
      | VList l, VList m => Some (list_ltb l m)
      | _, _ => None
      end
  | _, _ => None
  end.

(** [a < b] on the pairs [(bool, value)] used as sort keys: the first
    components that are not [==] decide. *)
Definition tuple_lt (a b : bool * value) : option bool :=
  if negb (Bool.eqb (fst a) (fst b)) then Some (negb (fst a) && fst b)
  else if negb (py_eq (snd a) (snd b)) then py_lt (snd a) (snd b)
  else Some false.

(** [a == b] on such pairs. *)
Definition tuple_eq (a b : bool * value) : bool :=
  Bool.eqb (fst a) (fst b) && py_eq (snd a) (snd b).

Section Sort.
Context {A : Type} (key : A -> bool * value).

(** [x] goes in front of the first item whose key is not below its own. *)
Fixpoint insert_by (x : A) (l : list A) : option (list A) :=
  match l with
  | [] => Some [x]
  | y :: l' =>
      match tuple_lt (key y) (key x) with
      | None => None
      | Some true =>
          match insert_by x l' with
          | Some r => Some (y :: r)
          | None => None
          end
      | Some false => Some (x :: y :: l')
      end
  end.

(** [l.sort(key=key)]: a stable sort that only uses [<] on the keys;
    [None] when a comparison raises [TypeError]. *)
Fixpoint py_sort (l : list A) : option (list A) :=
  match l with
  | [] => Some []
  | x :: l' =>
      match py_sort l' with
      | Some r => insert_by x r
      | None => None
      end
  end.
End Sort.

(** ** Text helpers *)

Definition is_hexdigit (c : ascii) : bool :=
  let n := nat_of_ascii c in
  ((48 <=? n) && (n <=? 57) || (65 <=? n) && (n <=? 70) || (97 <=? n) && (n <=? 102))%nat.

Definition lower_ascii (c : ascii) : ascii :=
  let n := nat_of_ascii c in
  if ((65 <=? n) && (n <=? 90))%nat then ascii_of_nat (n + 32) else c.

Fixpoint lower (s : string) : string :=
  match s with
  | EmptyString => EmptyString
  | String c s' => String (lower_ascii c) (lower s')
  end.

Fixpoint all_chars (p : ascii -> bool) (s : string) : bool :=
  match s with
  | EmptyString => true
  | String c s' => p c && all_chars p s'
  end.

Fixpoint starts_with (p s : string) : bool :=
  match p, s with
  | EmptyString, _ => true
  | String a p', String b s' => Ascii.eqb a b && starts_with p' s'
  | String _ _, EmptyString => false
  end.

(** [p in s]: [p] occurs in [s] as a substring. *)
Fixpoint occurs_in (p s : string) : bool :=
  starts_with p s ||
  match s with
  | EmptyString => false
  | String _ s' => occurs_in p s'
  end.

(** [p] occurs in [s] when letter case is ignored. *)
Definition ci_occurs (p s : string) : bool := occurs_in (lower p) (lower s).

(** The ASCII whitespace that [bytes.fromhex] skips. *)
Definition is_space (c : ascii) : bool :=
  let n := nat_of_ascii c in
  ((9 <=? n) && (n <=? 13) || (n =? 32))%nat.

(** [bytes.fromhex(s)]: pairs of hexadecimal digits, with whitespace
    allowed in front of every pair and at the end.  The bytes are kept as
    their lower-case digits; [None] is the [ValueError]. *)
Fixpoint fromhex (s : string) : option string :=
  match s with
  | EmptyString => Some EmptyString
  | String c s' =>
      if is_space c then fromhex s'
      else if is_hexdigit c then
        match s' with
        | String c' s'' =>
            if is_hexdigit c'
            then match fromhex s'' with
                 | Some h => Some (String (lower_ascii c) (String (lower_ascii c') h))
                 | None => None
                 end
            else None
        | EmptyString => None
        end
      else None
  end.

(** A byte that continues a character of UTF-8 text, [10xxxxxx]. *)
Definition is_continuation (c : ascii) : bool :=
  let n := nat_of_ascii c in
  ((128 <=? n) && (n <? 192))%nat.

(** [len(s)]: the number of characters of the text. *)
Fixpoint char_count (s : string) : nat :=
  match s with
  | EmptyString => O
  | String c s' => ((if is_continuation c then 0 else 1) + char_count s')%nat
  end.

(** [s[:n]]: the first [n] characters of the text, each with all its
    bytes. *)
Fixpoint take_chars (n : nat) (s : string) : string :=
  match s with
  | EmptyString => EmptyString
  | String c s' =>
      if is_continuation c then String c (take_chars n s')
      else match n with
           | O => EmptyString
           | S n' => String c (take_chars n' s')
           end
  end.

(** [k] holds the NUL character. *)
Definition has_nul (k : string) : bool :=
  negb (all_chars (fun c => negb (Ascii.eqb c Ascii.zero)) k).

(** ** Object identifiers *)

(** A parsed [bson.ObjectId], kept as the lower-case hexadecimal digits of
    its bytes (what [str] of it prints): 24 digits for the 12 bytes of an
    identifier the store assigns. *)
Inductive objectid : Type := Oid (hex : string).

Definition oid_str (o : objectid) : string := let 'Oid h := o in h.

Definition objectid_eqb (a b : objectid) : bool :=
  String.eqb (oid_str a) (oid_str b).

(** ** Exceptions *)

(** The exceptions that are not [HTTPException]: the handlers' own
    [Exception(msg)], a driver error with its text, [bson.errors.InvalidId],
    [TypeError], pydantic's [ValidationError], and the error of the driver's
    BSON encoder on a document it cannot encode ([OverflowError] for an
    integer beyond 8 bytes, [InvalidDocument] for a key with a NUL
    character, whichever item it meets first). *)
Inductive error : Type :=
| Exception (msg : string)
| PyMongoError (msg : string)
| InvalidId (oid : string)
| TypeError
| ValidationError
| EncodingError.

(** The [detail] of an [HTTPException]: a literal, or [str(e)]. *)
Inductive text : Type :=
| Text (s : string)
| Str (e : error).

Record http_exception : Type := HTTPException {
  status_code : Z;
  detail : text
}.

(** What the [try] body of a handler can raise. *)
Inductive exn : Type :=
| Err (e : error)
| Http (h : http_exception).

(** [ObjectId(note_id)]: a string of length 24 that [bytes.fromhex]
    takes, or [InvalidId].  A string with whitespace in it gives fewer
    than 12 bytes: an identifier that differs from every identifier of 12
    bytes. *)
Definition ObjectId (s : string) : error + objectid :=
  if Nat.eqb (String.length s) 24
  then match fromhex s with
       | Some h => inr (Oid h)
       | None => inl (InvalidId s)
       end
  else inl (InvalidId s).

(** ** The document store *)

Module Store.

(** A stored document: the identifier the store assigned, and the other
    top-level fields. *)
Record doc : Type := Doc {
  _id : objectid;
  fields : gmap string value
}.

(** [d.get(key)] for a key other than ["_id"]. *)
Definition get (d : doc) (key : string) : option value := fields d !! key.

(** A condition on one field: [v], [{"$in": vs}] or
    [{"$regex": pattern, "$options": options}]. *)
Inductive cond : Type :=
| CEq (v : value)
| CIn (vs : list value)
| CRegex (pattern options : string).

(** The value under a key of a filter: a condition on the field of that
    name, or under ["$or"] a list of alternatives, each a dict of field
    conditions. *)
Inductive clause : Type :=
| Field (c : cond)
| Or (alts : list (list (string * cond))).

(** A filter dict, as its items in insertion order (every key is set once). *)
Definition filter_dict : Type := list (string * clause).

(** [f[key] = c] for a key not yet in [f]. *)
Definition set_item (key : string) (c : clause) (f : filter_dict) : filter_dict :=
  (f ++ [(key, c)])%list.

(** The operations a handler sends to the store, in the order sent. *)
Inductive store_call : Type :=
| CListCollectionNames
| CFind (collection : string) (f : filter_dict)
| CDeleteOne (collection : string) (id : objectid)
| CUpdateOne (collection : string) (id : objectid) (set : gmap string value).

(** A key of a [$set] document that names a top-level field: not empty,
    no leading dollar, no dot. *)
Definition plain_key (k : string) : bool :=
  negb (String.eqb k "") && negb (starts_with "$" k) && negb (occurs_in "." k).

Definition plain_set (set : gmap string value) : bool :=
  forallb (fun kv => plain_key (fst kv)) (map_to_list set).

(** What the store does with a [$set] document that has a key which is not
    a plain field name (a dotted path into a field, a name with a leading
    dollar, the empty name) is its server's and is not modelled:
    [path_check set] is the error text when the server refuses the document
    as it reads it, and [path_apply set fields] is the outcome on a matched
    document, the error text or the fields after the update.  What the
    model keeps of the server is that [$set] assigns: applied once more to
    its own result, it gives that result. *)
Record path_engine : Type := {
  path_check : gmap string value -> option string;
  path_apply : gmap string value -> gmap string value -> string + gmap string value;
  path_apply_twice : forall set f f',
    path_apply set f = inr f' -> path_apply set f' = inr f'
}.

(** The state behind a connected handle.  [fault = Some msg] is a server
    that cannot be reached: every operation raises the driver's error with
    text [msg] and changes nothing.  [calls] records the operations the
    handlers call on the handle, [paths] is the server's treatment of
    [$set] paths. *)
Record mongo : Type := Mongo {
  fault : option string;
  collection_names : list string;
  note : list doc;
  calls : list store_call;
  paths : path_engine
}.

Definition log (c : store_call) (st : mongo) : mongo :=
  Mongo (fault st) (collection_names st) (note st) (calls st ++ [c])%list (paths st).

Definition with_note (l : list doc) (st : mongo) : mongo :=
  Mongo (fault st) (collection_names st) l (calls st) (paths st).

Record DeleteResult : Type := { deleted_count : Z }.
Record UpdateResult : Type := { matched_count : Z }.

(** Removes the first document whose [_id] is [o], if there is one. *)
Fixpoint remove_first (o : objectid) (l : list doc) : option (list doc) :=
  match l with
  | [] => None
  | d :: l' =>
      if objectid_eqb (_id d) o then Some l'
      else match remove_first o l' with
           | Some r => Some (d :: r)
           | None => None
           end
  end.

(** [$set] with plain field names: every key of [set] replaces the
    top-level field of that name. *)
Definition apply_set (set : gmap string value) (d : doc) : doc :=
  Doc (_id d) (set ∪ fields d).

Definition immutable_id_msg : string :=
  "Performing an update on the path '_id' would modify the immutable field '_id'".

(** [$set] on a matched document.  With plain field names, a [$set] that
    names ["_id"] is refused (the field is immutable) and any other one
    overwrites the fields it names; a [$set] with another kind of key is
    the server's business. *)
Definition apply_update (pe : path_engine) (set : gmap string value) (d : doc)
  : string + doc :=
  if plain_set set then
    match set !! "_id" with
    | Some _ => inl immutable_id_msg
    | None => inr (apply_set set d)
    end
  else
    match path_apply pe set (fields d) with
    | inl m => inl m
    | inr f => inr (Doc (_id d) f)
    end.

(** Applies [upd] to the first document whose [_id] is [o]. *)
Fixpoint update_first (o : objectid) (upd : doc -> string + doc) (l : list doc)
  : option (string + list doc) :=
  match l with
  | [] => None
  | d :: l' =>
      if objectid_eqb (_id d) o then
        match upd d with
        | inl m => Some (inl m)
        | inr d' => Some (inr (d' :: l'))
        end
      else match update_first o upd l' with
           | Some (inr r) => Some (inr (d :: r))
           | Some (inl m) => Some (inl m)
           | None => None
           end
  end.

(** What the driver's BSON encoder takes: an integer has to fit in 8
    bytes, and a key may not hold the NUL character. *)
Definition encodable_value (v : value) : bool :=
  match v with
  | VInt n => (-9223372036854775808 <=? n) && (n <=? 9223372036854775807)
  | _ => true
  end.

Definition encodable (set : gmap string value) : bool :=
  forallb (fun kv => negb (has_nul (fst kv)) && encodable_value (snd kv))
    (map_to_list set).

(** The error text when the server refuses a [$set] document as it reads
    it, whatever it would match. *)
Definition set_error (pe : path_engine) (set : gmap string value) : option string :=
  if plain_set set then None else path_check pe set.

(** [db.list_collection_names()] *)
Definition list_collection_names (st : mongo) : (string + list string) * mongo :=
  let st' := log CListCollectionNames st in
  match fault st with
  | Some m => (inl m, st')
  | None => (inr (collection_names st), st')
  end.

(** [db["note"].delete_one({"_id": o})] *)
Definition delete_one (o : objectid) (st : mongo) : (string + DeleteResult) * mongo :=
  let st' := log (CDeleteOne "note" o) st in
  match fault st with
  | Some m => (inl m, st')
  | None =>
      match remove_first o (note st) with
      | Some l => (inr {| deleted_count := 1 |}, with_note l st')
      | None => (inr {| deleted_count := 0 |}, st')
      end
  end.

(** [db["note"].update_one({"_id": o}, {"$set": set})]: the driver finds
    its server, encodes the operation and sends it; the server reads the
    [$set] document, then looks for the document to update.  A failure at
    any of these steps leaves the stored documents as they were. *)
Definition update_one (o : objectid) (set : gmap string value) (st : mongo)
  : (error + UpdateResult) * mongo :=
  let st' := log (CUpdateOne "note" o set) st in
  match fault st with
  | Some m => (inl (PyMongoError m), st')
  | None =>
      if negb (encodable set) then (inl EncodingError, st')
      else
        match set_error (paths st) set with
        | Some m => (inl (PyMongoError m), st')
        | None =>
            match update_first o (apply_update (paths st) set) (note st) with
            | Some (inr l) => (inr {| matched_count := 1 |}, with_note l st')
            | Some (inl m) => (inl (PyMongoError m), st')
            | None => (inr {| matched_count := 0 |}, st')
            end
        end
  end.

(** Equality of two values as the store's queries see it: like against
    like, and a boolean is not a number. *)
Definition bson_eqb (a b : value) : bool :=
  match a, b with
  | VNull, VNull => true
  | VBool x, VBool y => Bool.eqb x y
  | VInt x, VInt y => x =? y
  | VStr s, VStr t => String.eqb s t
  | VDate x, VDate y => x =? y
  | VList l, VList m => list_eqb l m
  | _, _ => false
  end.

(** A field (absent, or holding [v]) against a queried value [x]: a missing
    field only equals [null]; an array also matches through its items. *)
Definition field_is (ov : option value) (x : value) : bool :=
  match ov with
  | None => bson_eqb VNull x
  | Some v =>
      bson_eqb v x ||
      match v with
      | VList l => existsb (fun s => bson_eqb (VStr s) x) l
      | _ => false
      end
  end.

(** The store's regular expressions are those of its server and are not
    modelled: [regex_check pattern] is the error text when the server
    refuses the pattern, and [regex_search pattern options subject] tells
    whether the pattern matches somewhere in the subject. *)
Record regex_engine : Type := {
  regex_check : string -> option string;
  regex_search : string -> string -> string -> bool
}.

Section Query.
Variable re : regex_engine.

Definition eval_cond (c : cond) (ov : option value) : bool :=
  match c with
  | CEq x => field_is ov x
  | CIn xs => existsb (field_is ov) xs
  | CRegex p o =>
      match ov with
      | Some (VStr s) => regex_search re p o s
      | Some (VList l) => existsb (regex_search re p o) l
      | _ => false
      end
  end.

Definition eval_alt (d : doc) (alt : list (string * cond)) : bool :=
  forallb (fun kc => eval_cond (snd kc) (get d (fst kc))) alt.

Definition eval_clause (d : doc) (kc : string * clause) : bool :=
  match snd kc with
  | Field c => eval_cond c (get d (fst kc))
  | Or alts => existsb (eval_alt d) alts
  end.

(** Does [d] satisfy every item of the filter? *)
Definition matches (f : filter_dict) (d : doc) : bool := forallb (eval_clause d) f.

Definition cond_error (c : cond) : option string :=
  match c with
  | CRegex p _ => regex_check re p
  | _ => None
  end.

Definition clause_error (kc : string * clause) : option string :=
  match snd kc with
  | Field c => cond_error c
  | Or alts => list_find is_Some
                 (List.map (fun kc' => cond_error (snd kc')) (List.concat alts))
               ≫= snd
  end.

(** The first pattern of the filter that the server refuses, if any. *)
Definition filter_error (f : filter_dict) : option string :=
  list_find is_Some (List.map clause_error f) ≫= snd.

(** [list(db[collection].find(f))]: the matching documents in the order
    the collection keeps them. *)
Definition find (collection : string) (f : filter_dict) (st : mongo)
  : (string + list doc) * mongo :=
  let st' := log (CFind collection f) st in
  match fault st with
  | Some m => (inl m, st')
  | None =>
      match filter_error f with
      | Some m => (inl m, st')
      | None =>
          (inr (List.filter (matches f)
                  (if String.eqb collection "note" then note st else [])), st')
      end
  end.
End Query.

End Store.
Import Store.

(** ** The note schema *)

Module Schema.

(** Modelled from the spec: the [Note] schema of [schemas.py] (spec §3:
    title and content text, tags a list of text, color and mood optional
    text, is_pinned a boolean), extended by [NoteOut] with [id: str]. *)
Record NoteOut : Type := MkNoteOut {
  id : string;
  title : string;
  content : string;
  tags : list string;
  color : option string;
  is_pinned : bool;
  mood : option string
}.

(** pydantic's validation of one keyword argument against its field type
    (pydantic 2, not strict): a [str] field takes a string only, an
    [Optional[str]] field also [None], a [List[str]] field a list, and a
    [bool] field a boolean, the integers 0 and 1, and the words below in
    any letter case. *)
Definition as_str (v : value) : option string :=
  match v with
  | VStr s => Some s
  | _ => None
  end.

Definition as_optional_str (v : value) : option (option string) :=
  match v with
  | VNull => Some None
  | VStr s => Some (Some s)
  | _ => None
  end.

Definition as_list_str (v : value) : option (list string) :=
  match v with
  | VList l => Some l
  | _ => None
  end.

Definition bool_words_true : list string := ["1"; "on"; "t"; "true"; "y"; "yes"].
Definition bool_words_false : list string := ["0"; "off"; "f"; "false"; "n"; "no"].

Definition as_bool (v : value) : option bool :=
  match v with
  | VBool b => Some b
  | VInt n => if n =? 0 then Some false else if n =? 1 then Some true else None
  | VStr s =>
      if existsb (String.eqb (lower s)) bool_words_true then Some true
      else if existsb (String.eqb (lower s)) bool_words_false then Some false
      else None
  | _ => None
  end.

(** [NoteOut(id=..., title=..., ...)]: every argument is validated, and one
    that does not fit raises [ValidationError]. *)
Definition NoteOut_init (id : string) (title content tags color is_pinned mood : value)
  : error + NoteOut :=
  match as_str title, as_str content, as_list_str tags,
        as_optional_str color, as_bool is_pinned, as_optional_str mood with
  | Some t, Some c, Some g, Some k, Some p, Some m => inr (MkNoteOut id t c g k p m)
  | _, _, _, _, _, _ => inl ValidationError
  end.

End Schema.

(** ** The handler monad *)

(** [db] of [database.py]: [None], or a handle on the store. *)
Definition db_handle : Type := option mongo.

Inductive outcome (E A : Type) : Type :=
| Return (a : A)
| Raise (e : E).
Arguments Return {E A} a.
Arguments Raise {E A} e.

(** A computation that works on the store behind [db] and either returns
    or raises. *)
Definition M (E A : Type) : Type := db_handle -> outcome E A * db_handle.

Definition ret {E A} (a : A) : M E A := fun db => (Return a, db).
Definition raise {E A} (e : E) : M E A := fun db => (Raise e, db).

Definition bind {E A B} (m : M E A) (k : A -> M E B) : M E B :=
  fun db =>
    match m db with
    | (Return a, db') => k a db'
    | (Raise e, db') => (Raise e, db')
    end.

Notation "'let!' x ':=' m 'in' k" := (bind m (fun x => k))
  (at level 10, x pattern, m at level 100, k at level 200).

(** [try: m] with [except ... as e: h e] *)
Definition try_except {E E' A} (m : M E A) (h : E -> M E' A) : M E' A :=
  fun db =>
    match m db with
    | (Return a, db') => (Return a, db')
    | (Raise e, db') => h e db'
    end.

(** A step without effect on the store that may raise, such as
    [ObjectId(note_id)]. *)
Definition lift {E A} (inj : error -> E) (r : error + A) : M E A :=
  match r with
  | inl e => raise (inj e)
  | inr a => ret a
  end.

(** [if db is None: raise Exception("Database not available")] *)
Definition require_db {E} (inj : error -> E) : M E unit :=
  fun db =>
    match db with
    | None => (Raise (inj (Exception "Database not available")), db)
    | Some _ => (Return tt, db)
    end.

(** A call [db. ...] on the handle; on [None] Python raises a [TypeError]
    (the handlers test [db is None] first). *)
Definition on_store {E A} (inj : error -> E) (op : mongo -> (string + A) * mongo) : M E A :=
  fun db =>
    match db with
    | None => (Raise (inj TypeError), db)
    | Some st =>
        match op st with
        | (inl m, st') => (Raise (inj (PyMongoError m)), Some st')
        | (inr a, st') => (Return a, Some st')
        end
    end.

(** A call on the handle that can also fail inside the driver, with an
    error of any class. *)
Definition on_driver {E A} (inj : error -> E) (op : mongo -> (error + A) * mongo) : M E A :=
  fun db =>
    match db with
    | None => (Raise (inj TypeError), db)
    | Some st =>
        match op st with
        | (inl e, st') => (Raise (inj e), Some st')
        | (inr a, st') => (Return a, Some st')
        end
    end.

(** [except HTTPException: raise] followed by
    [except Exception as e: raise HTTPException(status_code=500, detail=str(e))] *)
Definition reraise_or_500 {A} (e : exn) : M http_exception A :=
  match e with
  | Http h => raise h
  | Err e => raise (HTTPException 500 (Str e))
  end.

(** [except Exception as e: raise HTTPException(status_code=500, detail=str(e))] *)
Definition any_to_500 {A} (e : error) : M http_exception A :=
  raise (HTTPException 500 (Str e)).

(** ** The handlers *)

(** [GET /] *)
Definition read_root : gmap string value :=
  {[ "message" := VStr "Papyrus Notes Backend is running" ]}.

(** [GET /test].  The response dict is filled in as the Python code does;
    the only call that can raise is [db.list_collection_names()], and the
    [except] branch then overwrites ["database"] with the first 120
    characters of [str(e)]. *)
Definition test_database : M error (gmap string value) :=
  fun db =>
    let response : gmap string value :=
      <[ "database" := VStr "❌ Not Available" ]> {[ "backend" := VStr "✅ Running" ]} in
    match db with
    | Some st =>
        let response := <[ "database" := VStr "✅ Connected" ]> response in
        match list_collection_names st with
        | (inr names, st') =>
            (Return (<[ "collections" := VList names ]> response), Some st')
        | (inl e, st') =>
            (Return (<[ "database" := VStr ("❌ Error: " ++ take_chars 120 e) ]> response),
             Some st')
        end
    | None => (Return (<[ "database" := VStr "❌ Not Connected" ]> response), db)
    end.

(** [doc.get(key, default)] *)
Definition get_or (d : doc) (key : string) (dflt : value) : value :=
  default dflt (get d key).

(** [serialize_note(doc)] *)
Definition serialize_note (d : doc) : error + Schema.NoteOut :=
  Schema.NoteOut_init
    (oid_str (_id d))
    (get_or d "title" (VStr ""))
    (get_or d "content" (VStr ""))
    (get_or d "tags" (VList []))
    (get_or d "color" VNull)
    (get_or d "is_pinned" (VBool false))
    (get_or d "mood" VNull).

(** [[serialize_note(d) for d in docs]] *)
Fixpoint serialize_all (docs : list doc) : error + list Schema.NoteOut :=
  match docs with
  | [] => inr []
  | d :: docs' =>
      match serialize_note d with
      | inl e => inl e
      | inr n =>
          match serialize_all docs' with
          | inl e => inl e
          | inr ns => inr (n :: ns)
          end
      end
  end.

(** [lambda d: (not d.get("is_pinned", False), d.get("created_at", 0))] *)
Definition sort_key (d : doc) : bool * value :=
  (negb (truthy (get_or d "is_pinned" (VBool false))), get_or d "created_at" (VInt 0)).

(** [docs.sort(key=..., reverse=False)] *)
Definition sort_docs (docs : list doc) : error + list doc :=
  match py_sort sort_key docs with
  | Some l => inr l
  | None => inl TypeError
  end.

Section Listing.
Variable re : regex_engine.

(** Modelled from the spec: [get_documents] of [database.py] (spec §2,
    the document store adapter read "by filter predicate"; §4.1, a store
    failure surfaces as a generic failure): the documents of the
    collection that satisfy the filter, or an exception when there is no
    handle or the store fails. *)
Definition get_documents (collection : string) (f : filter_dict) : M error (list doc) :=
  let! _ := require_db (fun e => e) in
  on_store (fun e => e) (find re collection f).

(** The filter dict [list_notes] builds from its query parameters. *)
Definition build_filter (tag q : option string) (pinned : option bool) : filter_dict :=
  let filter_dict : filter_dict := [] in
  let filter_dict :=
    match tag with
    | Some t =>
        if truthy (VStr t)
        then set_item "tags" (Field (CIn [VStr t])) filter_dict
        else filter_dict
    | None => filter_dict
    end in
  let filter_dict :=
    match pinned with
    | Some p => set_item "is_pinned" (Field (CEq (VBool p))) filter_dict
    | None => filter_dict
    end in
  match q with
  | Some p =>
      if truthy (VStr p)
      then set_item "$or" (Or [ [("title", CRegex p "i")];
                                [("content", CRegex p "i")] ]) filter_dict
      else filter_dict
  | None => filter_dict
  end.

(** [GET /api/notes] *)
Definition list_notes (tag q : option string) (pinned : option bool)
  : M http_exception (list Schema.NoteOut) :=
  try_except
    (let filter_dict := build_filter tag q pinned in
     let! docs := get_documents "note" filter_dict in
     let! docs := lift (fun e => e) (sort_docs docs) in
     lift (fun e => e) (serialize_all docs))
    any_to_500.
End Listing.

(** [DELETE /api/notes/{note_id}] *)
Definition delete_note (note_id : string) : M http_exception (gmap string value) :=
  try_except
    (let! _ := require_db Err in
     let! oid := lift Err (ObjectId note_id) in
     let! result := on_store Err (delete_one oid) in
     if deleted_count result =? 0
     then raise (Http (HTTPException 404 (Text "Note not found")))
     else ret {[ "ok" := VBool true ]})
    reraise_or_500.

(** [PATCH /api/notes/{note_id}] *)
Definition update_note (note_id : string) (payload : gmap string value)
  : M http_exception (gmap string value) :=
  try_except
    (let! _ := require_db Err in
     let payload := delete "_id" payload in
     let payload := <[ "updated_at" := default VNull (payload !! "updated_at") ]> payload in
     let! oid := lift Err (ObjectId note_id) in
     let! result := on_driver Err (update_one oid payload) in
     if matched_count result =? 0
     then raise (Http (HTTPException 404 (Text "Note not found")))
     else ret {[ "ok" := VBool true ]})
    reraise_or_500.

(** ** Vocabulary of the statements *)

(** [a] does not sort after [b]: the comparison [b < a] is defined and false. *)
Definition key_le (a b : bool * value) : Prop := tuple_lt b a = Some false.

(** [sorted] keeps the items of [orig] whose keys are [==] in the order
    they have in [orig]. *)
Definition stable_wrt {A : Type} (key : A -> bool * value) (orig sorted : list A) : Prop :=
  forall k, List.filter (fun x => tuple_eq (key x) k) sorted
            = List.filter (fun x => tuple_eq (key x) k) orig.

(** A stored document is pinned when its [is_pinned] field is truthy. *)
Definition pinned_doc (d : doc) : bool := truthy (get_or d "is_pinned" (VBool false)).

(** Every two keys of the list can be compared. *)
Definition comparable {A : Type} (key : A -> bool * value) (l : list A) : Prop :=
  forall x y, x ∈ l -> y ∈ l -> tuple_lt (key x) (key y) <> None.

(** A stored field is absent or passes the test [p]. *)
Definition absent_or (p : value -> bool) (ov : option value) : bool :=
  match ov with
  | None => true
  | Some v => p v
  end.

Definition is_str (v : value) : bool := match v with VStr _ => true | _ => false end.
Definition is_list (v : value) : bool := match v with VList _ => true | _ => false end.
Definition is_bool (v : value) : bool := match v with VBool _ => true | _ => false end.
Definition is_optional_str (v : value) : bool :=
  match v with VNull | VStr _ => true | _ => false end.

(** Every field of the schema is absent from the stored document or holds
    a value of the schema's type. *)
Definition schema_typed (d : doc) : bool :=
  absent_or is_str (get d "title") && absent_or is_str (get d "content") &&
  absent_or is_list (get d "tags") && absent_or is_optional_str (get d "color") &&
  absent_or is_bool (get d "is_pinned") && absent_or is_optional_str (get d "mood").

(** The selection of the list operation, read on the stored fields: the
    tag, when given and not empty, is an item of the stored tags; the
    stored [is_pinned] is the boolean asked for; the text, when given and
    not empty, [hit]s the stored title or the stored content. *)
Definition selected (hit : string -> string -> bool)
    (tag q : option string) (pinned : option bool) (d : doc) : Prop :=
  (forall t, tag = Some t -> t <> "" ->
     exists l, get d "tags" = Some (VList l) /\ t ∈ l) /\
  (forall p, pinned = Some p -> get d "is_pinned" = Some (VBool p)) /\
  (forall p, q = Some p -> p <> "" ->
     (exists s, get d "title" = Some (VStr s) /\ hit p s = true) \/
     (exists s, get d "content" = Some (VStr s) /\ hit p s = true)).

(** The selection as the specification words it, read on the note that is
    returned: a tag that is given is a member of the tags, a [pinned] that
    is given equals [is_pinned], and a text that is given occurs, letter
    case ignored, in the title or in the content. *)
Definition claimed_selected (tag q : option string) (pinned : option bool)
    (n : Schema.NoteOut) : Prop :=
  (forall t, tag = Some t -> t ∈ Schema.tags n) /\
  (forall p, pinned = Some p -> Schema.is_pinned n = p) /\
  (forall p, q = Some p ->
     ci_occurs p (Schema.title n) = true \/ ci_occurs p (Schema.content n) = true).

(** The engine reads the pattern [p] as plain text. *)
Definition plain_pattern (re : regex_engine) (p : string) : Prop :=
  forall s, regex_search re p "i" s = ci_occurs p s.

(** The note that [serialize_note] returns for [d] takes every field the
    document lacks from the defaults, and a stored string, list or boolean
    as it is. *)
Definition defaults_filled (d : doc) (n : Schema.NoteOut) : Prop :=
  Schema.id n = oid_str (_id d) /\
  (get d "title" = None -> Schema.title n = "") /\
  (get d "content" = None -> Schema.content n = "") /\
  (get d "tags" = None -> Schema.tags n = []) /\
  (get d "is_pinned" = None -> Schema.is_pinned n = false) /\
  (forall s, get d "title" = Some (VStr s) -> Schema.title n = s) /\
  (forall s, get d "content" = Some (VStr s) -> Schema.content n = s) /\
  (forall l, get d "tags" = Some (VList l) -> Schema.tags n = l) /\
  (forall b, get d "is_pinned" = Some (VBool b) -> Schema.is_pinned n = b).

(** The [$set] document [update_note] sends for a payload. *)
Definition set_of (payload : gmap string value) : gmap string value :=
  let payload := delete "_id" payload in
  <[ "updated_at" := default VNull (payload !! "updated_at") ]> payload.

(** A [$set] document of the kind a note's fields make: the driver
    encodes it, and every key is a plain field name. *)
Definition accepted (set : gmap string value) : bool := encodable set && plain_set set.

(** ** Sample data *)

(** An engine that reads every pattern as plain text. *)
Definition substring_engine : regex_engine :=
  {| regex_check := fun _ => None;
     regex_search := fun p o s => if occurs_in "i" o then ci_occurs p s else occurs_in p s |}.

Definition sample_note (hex title : string) (tags : list string) (pinned : bool) (at_ : Z) : doc :=
  Doc (Oid hex)
    (<[ "title" := VStr title ]> (<[ "content" := VStr "" ]> (<[ "tags" := VList tags ]>
    (<[ "is_pinned" := VBool pinned ]> (<[ "created_at" := VInt at_ ]>
    (<[ "updated_at" := VInt at_ ]> ∅)))))).

Definition id_A : string := "aaaaaaaaaaaaaaaaaaaaaaaa".
Definition id_B : string := "bbbbbbbbbbbbbbbbbbbbbbbb".
Definition id_C : string := "cccccccccccccccccccccccc".
Definition id_D : string := "dddddddddddddddddddddddd".

(** The notes of the ordering example: A pinned at 5, B not pinned at 1,
    C pinned at 2. *)
Definition note_A : doc := sample_note id_A "A" [] true 5.
Definition note_B : doc := sample_note id_B "B" [] false 1.
Definition note_C : doc := sample_note id_C "C" [] true 2.

(** A server that refuses every [$set] document with a key that is not a
    plain field name. *)
Definition no_paths : path_engine.
Proof.
  refine {| path_check := fun _ => Some "path updates are refused";
            path_apply := fun _ _ => inl "path updates are refused" |}.
  discriminate.
Defined.

Definition store_ABC : mongo := Mongo None ["note"] [note_A; note_B; note_C] [] no_paths.

Definition out_of (hex title : string) (pinned : bool) : Schema.NoteOut :=
  Schema.MkNoteOut hex title "" [] None pinned None.

(** Between [d] and [d'] no field other than [title] differs. *)
Definition only_title_changed (d d' : doc) : Prop :=
  _id d' = _id d /\ forall key, key <> "title" -> get d' key = get d key.

(** [msg] is the text [s] cut after its first [n] characters: a prefix of
    [s] that ends where a character ends and has [n] characters, or all
    the characters of [s] when these are fewer. *)
Definition first_chars (n : nat) (s msg : string) : Prop :=
  exists rest, s = msg ++ rest /\ char_count msg = Nat.min n (char_count s) /\
    match rest with
    | EmptyString => True
    | String c _ => is_continuation c = false
    end.

(** The three forms of the ["database"] field of [GET /test]. *)
Inductive database_form : string -> Prop :=
| form_connected : database_form "✅ Connected"
| form_not_connected : database_form "❌ Not Connected"
| form_error (e : string) : database_form ("❌ Error: " ++ take_chars 120 e).

Definition out_A : Schema.NoteOut := out_of id_A "A" true.
Definition out_B : Schema.NoteOut := out_of id_B "B" false.
Definition out_C : Schema.NoteOut := out_of id_C "C" true.

(** [d] without a [tags] field, and [d] with an empty [tags] list. *)
Definition without_tags (d : doc) : doc := Doc (_id d) (delete "tags" (fields d)).
Definition with_empty_tags (d : doc) : doc := Doc (_id d) (<[ "tags" := VList [] ]> (fields d)).

(** The [created_at] that the sort reads from a document. *)
Definition created_at_key (d : doc) : value := get_or d "created_at" (VInt 0).

(** A note stamped with a datetime, and a note without [created_at]. *)
Definition note_dated : doc :=
  Doc (Oid id_A) (<[ "title" := VStr "dated" ]> (<[ "created_at" := VDate 1700000000000 ]> ∅)).
Definition note_undated : doc :=
  Doc (Oid id_B) (<[ "title" := VStr "undated" ]> ∅).
Definition store_dates : mongo := Mongo None ["note"] [note_dated; note_undated] [] no_paths.

(** The identifiers of the stored notes, in the store's order. *)
Definition ids (st : mongo) : list objectid := _id <$> note st.

(** The stored notes behind a handle. *)
Definition notes_of (db : db_handle) : option (list doc) :=
  match db with
  | Some st => Some (note st)
  | None => None
  end.

(** The fields that [serialize_note] reads besides ["_id"]. *)
Definition schema_fields : list string :=
  ["title"; "content"; "tags"; "color"; "is_pinned"; "mood"].

(** [d] with the field [key] set to [v]. *)
Definition with_field (key : string) (v : value) (d : doc) : doc :=
  Doc (_id d) (<[ key := v ]> (fields d)).

(** Every stored identifier is one that [ObjectId] parses back from its
    printed form, as the identifiers the store assigns are. *)
Definition printable_ids (st : mongo) : Prop :=
  Forall (fun d => ObjectId (oid_str (_id d)) = inr (_id d)) (note st).


(** [if s:] on an [Optional[str]]: [None] and the empty string are falsy. *)
Definition truthy_str (o : option string) : bool :=
  match o with
  | None => false
  | Some s => truthy (VStr s)
  end.

(** The fields a listing reads from a stored document besides ["_id"]:
    those of [serialize_note] and of the filter, and the sort's
    ["created_at"]. *)
Definition listing_keys : list string := (schema_fields ++ ["created_at"])%list.

(** [d'] has the identifier of [d] and agrees with it on every field a
    listing reads. *)
Definition same_view (d d' : doc) : Prop :=
  _id d' = _id d /\ forall key, key ∈ listing_keys -> get d' key = get d key.

(** * Proofs *)

(** ** The order on sort keys *)

Lemma string_ltb_leb (s t : string) : String.ltb t s = negb (String.leb s t).
Proof.
  unfold String.ltb, String.leb. rewrite (String.compare_antisym s t).
  destruct (String.compare t s); reflexivity.
Qed.

Lemma string_ltb_irrefl (s : string) : String.ltb s s = false.
Proof.
  rewrite string_ltb_leb.
  assert (H : String.le s s) by reflexivity.
  unfold String.le in H. destruct (String.leb s s); [reflexivity | contradiction].
Qed.

Lemma string_ltb_asym (s t : string) : String.ltb s t = true -> String.ltb t s = false.
Proof.
  unfold String.ltb. rewrite (String.compare_antisym s t).
  destruct (String.compare t s); simpl; congruence.
Qed.

Lemma string_nlt_trans (a b c : string) :
  String.ltb b a = false -> String.ltb c b = false -> String.ltb c a = false.
Proof.
  rewrite !string_ltb_leb, !negb_false_iff. intros Hab Hbc.
  assert (H : String.le a c).
  { transitivity b; unfold String.le; [rewrite Hab | rewrite Hbc]; exact I. }
  unfold String.le in H. destruct (String.leb a c); [reflexivity | contradiction].
Qed.

Lemma string_nlt_antisym (a b : string) :
  String.ltb a b = false -> String.ltb b a = false -> a = b.
Proof.
  rewrite !string_ltb_leb, !negb_false_iff. intros H1 H2.
  apply String.leb_antisym; assumption.
Qed.

Lemma list_eqb_eq (l m : list string) : list_eqb l m = true <-> l = m.
Proof.
  revert m. induction l as [|x l IH]; intros [|y m]; simpl; split; try congruence.
  - intros [Hx Hl]%andb_true_iff. apply String.eqb_eq in Hx. apply IH in Hl. congruence.
  - intros [= -> ->]. rewrite String.eqb_refl. simpl. apply IH. reflexivity.
Qed.

Lemma list_ltb_irrefl (l : list string) : list_ltb l l = false.
Proof. induction l as [|x l IH]; simpl; [reflexivity|]. rewrite String.eqb_refl. exact IH. Qed.

Lemma list_ltb_asym (l m : list string) : list_ltb l m = true -> list_ltb m l = false.
Proof.
  revert m. induction l as [|x l IH]; intros [|y m]; simpl; try congruence.
  rewrite (String.eqb_sym y x). destruct (String.eqb_spec x y) as [->|Hne].
  - apply IH.
  - apply string_ltb_asym.
Qed.

Lemma list_nlt_trans (a b c : list string) :
  list_ltb b a = false -> list_ltb c b = false -> list_ltb c a = false.
Proof.
  revert b c. induction a as [|x a IH]; intros [|y b] [|z c]; simpl; try congruence.
  destruct (String.eqb_spec y x) as [->|Hyx].
  - destruct (String.eqb_spec z x) as [->|Hzx]; [apply IH | congruence].
  - destruct (String.eqb_spec z y) as [->|Hzy].
    + destruct (String.eqb_spec y x); congruence.
    + intros H1 H2. destruct (String.eqb_spec z x) as [->|Hzx].
      * exfalso. apply Hyx. apply string_nlt_antisym; assumption.
      * eapply string_nlt_trans; eassumption.
Qed.

Ltac num_crush :=
  repeat match goal with
    | H : context [Z.eqb ?x ?y] |- _ => destruct (Z.eqb_spec x y)
    | |- context [Z.eqb ?x ?y] => destruct (Z.eqb_spec x y)
    | H : context [Z.ltb ?x ?y] |- _ => destruct (Z.ltb_spec x y)
    | |- context [Z.ltb ?x ?y] => destruct (Z.ltb_spec x y)
    end;
  try (intuition (congruence || lia)).

Ltac str_crush :=
  repeat match goal with
    | H : context [String.eqb ?x ?y] |- _ => destruct (String.eqb_spec x y); subst
    | |- context [String.eqb ?x ?y] => destruct (String.eqb_spec x y); subst
    end.

Lemma list_eqb_spec (l m : list string) : reflect (l = m) (list_eqb l m).
Proof. apply iff_reflect. symmetry. apply list_eqb_eq. Qed.

Ltac list_crush :=
  repeat match goal with
    | H : context [list_eqb ?x ?y] |- _ => destruct (list_eqb_spec x y); subst
    | |- context [list_eqb ?x ?y] => destruct (list_eqb_spec x y); subst
    end.

Lemma py_eq_sym (a b : value) : py_eq a b = py_eq b a.
Proof.
  destruct a, b; unfold py_eq; simpl; try reflexivity;
    try (repeat match goal with b : bool |- _ => destruct b end; num_crush; fail).
  - str_crush; congruence.
  - list_crush; congruence.
Qed.

Lemma py_eq_trans (a b c : value) :
  py_eq a b = true -> py_eq b c = true -> py_eq a c = true.
Proof.
  destruct a, b, c; unfold py_eq; simpl; try congruence;
    try (repeat match goal with b : bool |- _ => destruct b end; num_crush; fail).
  - str_crush; congruence.
  - list_crush; congruence.
Qed.

Lemma py_lt_asym (a b : value) : py_lt a b = Some true -> py_lt b a = Some false.
Proof.
  destruct a, b; unfold py_lt; simpl; try congruence;
    try (repeat match goal with b : bool |- _ => destruct b end; num_crush; fail).
  - intros [= H]. f_equal. apply string_ltb_asym, H.
  - intros [= H]. f_equal. apply list_ltb_asym, H.
Qed.

(** [b] is not below [a], and [c] is not below [b]: then [c] is not below [a]. *)
Lemma py_nlt_trans (a b c : value) :
  (py_eq b a = true \/ py_lt b a = Some false) ->
  (py_eq c b = true \/ py_lt c b = Some false) ->
  (py_eq c a = true \/ py_lt c a = Some false).
Proof.
  destruct a, b, c; unfold py_eq, py_lt; simpl; try (intuition congruence);
    try (repeat match goal with b : bool |- _ => destruct b end; num_crush; fail).
  - intros [H1|[= H1]] [H2|[= H2]]; str_crush; try congruence;
      try (right; f_equal; first [assumption | apply string_ltb_irrefl]).
    right. f_equal. eapply string_nlt_trans; eassumption.
  - intros [H1|[= H1]] [H2|[= H2]]; list_crush; try congruence;
      try (right; f_equal; first [assumption | apply list_ltb_irrefl]).
    right. f_equal. eapply list_nlt_trans; eassumption.
Qed.

Lemma tuple_eq_sym (a b : bool * value) : tuple_eq a b = tuple_eq b a.
Proof.
  unfold tuple_eq. rewrite py_eq_sym. f_equal.
  destruct (fst a), (fst b); reflexivity.
Qed.

Lemma tuple_eq_trans (a b c : bool * value) :
  tuple_eq a b = true -> tuple_eq b c = true -> tuple_eq a c = true.
Proof.
  unfold tuple_eq. intros [H1 H2]%andb_true_iff [H3 H4]%andb_true_iff.
  apply andb_true_iff. split.
  - apply Bool.eqb_prop in H1, H3. rewrite H1, H3. apply Bool.eqb_reflx.
  - eapply py_eq_trans; eassumption.
Qed.

Lemma tuple_eq_not_lt (a b : bool * value) : tuple_eq a b = true -> tuple_lt a b = Some false.
Proof.
  unfold tuple_eq, tuple_lt. intros [H1 H2]%andb_true_iff. rewrite H1, H2. reflexivity.
Qed.

Lemma tuple_lt_asym (a b : bool * value) : tuple_lt a b = Some true -> tuple_lt b a = Some false.
Proof.
  destruct a as [x u], b as [y v]. unfold tuple_lt. simpl.
  destruct x, y; simpl; try congruence.
  - rewrite (py_eq_sym v u). destruct (py_eq u v); simpl; [congruence | apply py_lt_asym].
  - rewrite (py_eq_sym v u). destruct (py_eq u v); simpl; [congruence | apply py_lt_asym].
Qed.

Lemma tuple_nlt_inv (x y : bool) (u v : value) :
  tuple_lt (y, v) (x, u) = Some false <->
  (x = false /\ y = true) \/ (x = y /\ (py_eq v u = true \/ py_lt v u = Some false)).
Proof.
  unfold tuple_lt. simpl. destruct x, y; simpl;
    try (destruct (py_eq v u); simpl); intuition congruence.
Qed.

Lemma key_le_trans (a b c : bool * value) : key_le a b -> key_le b c -> key_le a c.
Proof.
  destruct a as [x u], b as [y v], c as [z w]. unfold key_le.
  rewrite !tuple_nlt_inv. intros [[-> ->]|[-> H1]] [[? ?]|[-> H2]]; try congruence; auto.
  right. split; [reflexivity|]. eapply py_nlt_trans; eassumption.
Qed.

(** ** [py_sort] is a stable sort *)

Section SortFacts.
Context {A : Type} (key : A -> bool * value).

(** Where [insert_by] puts [x]: behind a prefix of strictly smaller items
    and in front of an item that is not smaller. *)
Lemma insert_by_split (x : A) (l r : list A) :
  insert_by key x l = Some r ->
  exists l1 l2, l = (l1 ++ l2)%list /\ r = (l1 ++ x :: l2)%list /\
    Forall (fun y => tuple_lt (key y) (key x) = Some true) l1 /\
    (forall y l2', l2 = y :: l2' -> key_le (key x) (key y)).
Proof.
  revert r. induction l as [|y l IH]; simpl; intros r H.
  - injection H as <-. exists [], []. repeat split; [constructor | congruence].
  - destruct (tuple_lt (key y) (key x)) as [[|]|] eqn:Hlt; try discriminate.
    + destruct (insert_by key x l) as [r'|] eqn:Hins; try discriminate.
      injection H as <-. destruct (IH r' eq_refl) as (l1 & l2 & -> & -> & Hall & Hhd).
      exists (y :: l1), l2. repeat split; [constructor; assumption | exact Hhd].
    + injection H as <-. exists [], (y :: l). repeat split; [constructor|].
      intros y' l2' [= <- <-]. exact Hlt.
Qed.

Lemma insert_by_defined (x : A) (l : list A) :
  (forall y, y ∈ l -> tuple_lt (key y) (key x) <> None) ->
  exists r, insert_by key x l = Some r.
Proof.
  induction l as [|y l IH]; simpl; intros H; [eauto|].
  destruct (tuple_lt (key y) (key x)) as [[|]|] eqn:Hlt.
  - destruct IH as [r ->]; [|eauto]. intros z Hz. apply H. by right.
  - eauto.
  - exfalso. apply (H y); [by left | exact Hlt].
Qed.

Lemma py_sort_perm (l r : list A) : py_sort key l = Some r -> r ≡ₚ l.
Proof.
  revert r. induction l as [|x l IH]; simpl; intros r H.
  - by injection H as <-.
  - destruct (py_sort key l) as [r'|]; try discriminate.
    apply insert_by_split in H as (l1 & l2 & Hr' & -> & _).
    rewrite <- (IH r' eq_refl), Hr'. symmetry. apply Permutation_middle.
Qed.

Lemma py_sort_defined (l : list A) :
  comparable key l -> exists r, py_sort key l = Some r.
Proof.
  induction l as [|x l IH]; simpl; intros H; [eauto|].
  destruct IH as [r Hr].
  { intros a b Ha Hb. apply H; by right. }
  rewrite Hr. apply insert_by_defined. intros y Hy. apply H; [|by left].
  right. by rewrite <- (py_sort_perm _ _ Hr).
Qed.

Lemma py_sort_sorted (l r : list A) :
  py_sort key l = Some r ->
  StronglySorted (fun a b => key_le (key a) (key b)) r.
Proof.
  revert r. induction l as [|x l IH]; simpl; intros r H.
  - injection H as <-. constructor.
  - destruct (py_sort key l) as [r'|]; try discriminate.
    specialize (IH r' eq_refl).
    apply insert_by_split in H as (l1 & l2 & -> & -> & Hlow & Hhd).
    apply StronglySorted_app in IH as (S12 & S1 & S2).
    apply StronglySorted_app. split; [|split; [exact S1|]].
    + intros a b Ha Hb. apply elem_of_cons in Hb as [->|Hb]; [|by apply S12].
      rewrite Forall_forall in Hlow. unfold key_le.
      apply tuple_lt_asym, Hlow, Ha.
    + constructor; [exact S2|]. destruct l2 as [|y l2]; [constructor|].
      specialize (Hhd y l2 eq_refl). apply StronglySorted_inv in S2 as [_ Hy].
      constructor; [exact Hhd|].
      eapply Forall_impl; [exact Hy|]. intros z Hz. simpl in Hz.
      eapply key_le_trans; eassumption.
Qed.

Lemma py_sort_stable (l r : list A) : py_sort key l = Some r -> stable_wrt key l r.
Proof.
  revert r. induction l as [|x l IH]; simpl; intros r H k.
  - by injection H as <-.
  - destruct (py_sort key l) as [r'|]; try discriminate.
    specialize (IH r' eq_refl k).
    apply insert_by_split in H as (l1 & l2 & -> & -> & Hlow & _).
    simpl. rewrite <- IH, !List.filter_app. simpl.
    destruct (tuple_eq (key x) k) eqn:Hx; [|reflexivity].
    assert (Hnone : List.filter (fun y => tuple_eq (key y) k) l1 = []).
    { clear IH. induction Hlow as [|y l1 Hy _ IH1]; simpl; [reflexivity|].
      destruct (tuple_eq (key y) k) eqn:Hyk; [|exact IH1].
      exfalso. rewrite tuple_eq_sym in Hx.
      pose proof (tuple_eq_not_lt _ _ (tuple_eq_trans _ _ _ Hyk Hx)). congruence. }
    rewrite Hnone. reflexivity.
Qed.
End SortFacts.

(** ** The store operations *)

Lemma objectid_eqb_eq (a b : objectid) : objectid_eqb a b = true <-> a = b.
Proof.
  destruct a as [x], b as [y]. unfold objectid_eqb. simpl.
  rewrite String.eqb_eq. split; congruence.
Qed.

Lemma objectid_eqb_neq (a b : objectid) : objectid_eqb a b = false <-> a <> b.
Proof.
  rewrite <- objectid_eqb_eq. destruct (objectid_eqb a b); split; congruence.
Qed.

Lemma remove_first_absent (o : objectid) (l : list doc) :
  (forall d, d ∈ l -> _id d <> o) -> remove_first o l = None.
Proof.
  induction l as [|d l IH]; simpl; intros H; [reflexivity|].
  assert (Hd : objectid_eqb (_id d) o = false) by (apply objectid_eqb_neq, H; by left).
  rewrite Hd, IH; [reflexivity|]. intros x Hx. apply H. by right.
Qed.

Lemma update_first_absent (o : objectid) (upd : doc -> string + doc) (l : list doc) :
  (forall d, d ∈ l -> _id d <> o) -> update_first o upd l = None.
Proof.
  induction l as [|d l IH]; simpl; intros H; [reflexivity|].
  assert (Hd : objectid_eqb (_id d) o = false) by (apply objectid_eqb_neq, H; by left).
  rewrite Hd, IH; [reflexivity|]. intros x Hx. apply H. by right.
Qed.

Lemma update_first_found (o : objectid) (upd : doc -> string + doc)
    (l1 l2 : list doc) (d d' : doc) :
  _id d = o -> (forall x, x ∈ l1 -> _id x <> o) -> upd d = inr d' ->
  update_first o upd (l1 ++ d :: l2) = Some (inr (l1 ++ d' :: l2))%list.
Proof.
  intros Hd Hl1 Hupd. induction l1 as [|x l1 IH]; simpl.
  - assert (H : objectid_eqb (_id d) o = true) by (by apply objectid_eqb_eq).
    rewrite H, Hupd. reflexivity.
  - assert (H : objectid_eqb (_id x) o = false) by (apply objectid_eqb_neq, Hl1; by left).
    rewrite H, IH; [reflexivity|]. intros y Hy. apply Hl1. by right.
Qed.

Lemma update_first_ids (o : objectid) (upd : doc -> string + doc) (l l' : list doc) :
  (forall d d', upd d = inr d' -> _id d' = _id d) ->
  update_first o upd l = Some (inr l') -> List.map _id l' = List.map _id l.
Proof.
  intros Hupd. revert l'. induction l as [|d l IH]; simpl; intros l' H; [discriminate|].
  destruct (objectid_eqb (_id d) o).
  - destruct (upd d) as [m|d'] eqn:Hd; [discriminate|]. injection H as <-.
    simpl. f_equal. by apply Hupd.
  - destruct (update_first o upd l) as [[m|r]|]; try discriminate.
    injection H as <-. simpl. f_equal. by apply IH.
Qed.

Lemma apply_update_id (pe : path_engine) (set : gmap string value) (d d' : doc) :
  apply_update pe set d = inr d' -> _id d' = _id d.
Proof.
  unfold apply_update. destruct (plain_set set).
  - destruct (set !! "_id"); [discriminate|]. by intros [= <-].
  - destruct (path_apply pe set (fields d)); [discriminate|]. by intros [= <-].
Qed.

Lemma accepted_inv (set : gmap string value) :
  accepted set = true -> encodable set = true /\ plain_set set = true.
Proof. unfold accepted. intros H. by apply andb_prop in H. Qed.

Lemma apply_update_plain (pe : path_engine) (set : gmap string value) (d : doc) :
  plain_set set = true -> set !! "_id" = None ->
  apply_update pe set d = inr (apply_set set d).
Proof. intros Hp Hid. unfold apply_update. by rewrite Hp, Hid. Qed.

Lemma set_of_no_id (payload : gmap string value) : set_of payload !! "_id" = None.
Proof.
  unfold set_of. simpl. rewrite lookup_insert_ne by discriminate. apply lookup_delete_eq.
Qed.

Lemma set_of_updated_at (payload : gmap string value) :
  set_of payload !! "updated_at" = Some (default VNull (payload !! "updated_at")).
Proof.
  unfold set_of. simpl. rewrite lookup_insert_eq, lookup_delete_ne by discriminate. reflexivity.
Qed.

(** ** The handlers that write, step by step *)

Lemma update_note_unfold (note_id : string) (payload : gmap string value) (db : db_handle) :
  update_note note_id payload db =
  match db with
  | None => (Raise (HTTPException 500 (Str (Exception "Database not available"))), None)
  | Some st =>
      match ObjectId note_id with
      | inl e => (Raise (HTTPException 500 (Str e)), Some st)
      | inr o =>
          match update_one o (set_of payload) st with
          | (inl e, st') => (Raise (HTTPException 500 (Str e)), Some st')
          | (inr r, st') =>
              if matched_count r =? 0
              then (Raise (HTTPException 404 (Text "Note not found")), Some st')
              else (Return {[ "ok" := VBool true ]}, Some st')
          end
      end
  end.
Proof.
  unfold update_note, try_except, bind, require_db, lift, on_driver, set_of.
  destruct db as [st|]; [|reflexivity]. simpl.
  destruct (ObjectId note_id) as [e|o]; [reflexivity|]. simpl.
  destruct (update_one o _ st) as [[m|r] st']; [reflexivity|].
  destruct (matched_count r =? 0); reflexivity.
Qed.

Lemma delete_note_unfold (note_id : string) (db : db_handle) :
  delete_note note_id db =
  match db with
  | None => (Raise (HTTPException 500 (Str (Exception "Database not available"))), None)
  | Some st =>
      match ObjectId note_id with
      | inl e => (Raise (HTTPException 500 (Str e)), Some st)
      | inr o =>
          match delete_one o st with
          | (inl m, st') => (Raise (HTTPException 500 (Str (PyMongoError m))), Some st')
          | (inr r, st') =>
              if deleted_count r =? 0
              then (Raise (HTTPException 404 (Text "Note not found")), Some st')
              else (Return {[ "ok" := VBool true ]}, Some st')
          end
      end
  end.
Proof.
  unfold delete_note, try_except, bind, require_db, lift, on_store.
  destruct db as [st|]; [|reflexivity]. simpl.
  destruct (ObjectId note_id) as [e|o]; [reflexivity|]. simpl.
  destruct (delete_one o st) as [[m|r] st']; [reflexivity|].
  destruct (deleted_count r =? 0); reflexivity.
Qed.

(** [update_one] for a [$set] document of the ordinary kind. *)
Lemma update_one_accepted (o : objectid) (set : gmap string value) (st : mongo) :
  fault st = None -> accepted set = true ->
  update_one o set st =
    match update_first o (apply_update (paths st) set) (note st) with
    | Some (inr l) => (inr {| matched_count := 1 |},
                       with_note l (log (CUpdateOne "note" o set) st))
    | Some (inl m) => (inl (PyMongoError m), log (CUpdateOne "note" o set) st)
    | None => (inr {| matched_count := 0 |}, log (CUpdateOne "note" o set) st)
    end.
Proof.
  intros Hf Hacc. apply accepted_inv in Hacc as [He Hp].
  unfold update_one, set_error. rewrite Hf, He, Hp. reflexivity.
Qed.

(** ** Update and delete *)

Lemma update_note_found (note_id : string) (o : objectid) (payload : gmap string value)
    (st : mongo) (l1 l2 : list doc) (d : doc) :
  fault st = None -> ObjectId note_id = inr o -> accepted (set_of payload) = true ->
  note st = (l1 ++ d :: l2)%list -> _id d = o -> (forall x, x ∈ l1 -> _id x <> o) ->
  update_note note_id payload (Some st) =
    (Return {[ "ok" := VBool true ]},
     Some (with_note (l1 ++ apply_set (set_of payload) d :: l2)
             (log (CUpdateOne "note" o (set_of payload)) st))).
Proof.
  intros Hf Hid Hacc Hst Hd Hl1.
  rewrite update_note_unfold, Hid, (update_one_accepted _ _ _ Hf Hacc), Hst.
  rewrite (update_first_found o _ l1 l2 d (apply_set (set_of payload) d) Hd Hl1);
    [reflexivity|].
  apply apply_update_plain; [by apply accepted_inv in Hacc as [_ ?] | apply set_of_no_id].
Qed.

Lemma update_note_not_found (note_id : string) (o : objectid) (payload : gmap string value)
    (st : mongo) :
  fault st = None -> ObjectId note_id = inr o -> accepted (set_of payload) = true ->
  (forall d, d ∈ note st -> _id d <> o) ->
  update_note note_id payload (Some st) =
    (Raise (HTTPException 404 (Text "Note not found")),
     Some (log (CUpdateOne "note" o (set_of payload)) st)).
Proof.
  intros Hf Hid Hacc Habs.
  rewrite update_note_unfold, Hid, (update_one_accepted _ _ _ Hf Hacc).
  by rewrite (update_first_absent o _ (note st)).
Qed.

(** A payload the driver cannot encode: HTTP 500, and the stored documents
    stay as they were, whether or not one has the identifier. *)
Lemma update_note_unencodable (note_id : string) (o : objectid)
    (payload : gmap string value) (st : mongo) :
  fault st = None -> ObjectId note_id = inr o -> encodable (set_of payload) = false ->
  update_note note_id payload (Some st) =
    (Raise (HTTPException 500 (Str EncodingError)),
     Some (log (CUpdateOne "note" o (set_of payload)) st)).
Proof.
  intros Hf Hid Henc. rewrite update_note_unfold, Hid. unfold update_one.
  by rewrite Hf, Henc.
Qed.

Lemma apply_set_get (set : gmap string value) (d : doc) (key : string) :
  get (apply_set set d) key =
    match set !! key with Some v => Some v | None => get d key end.
Proof.
  unfold get, apply_set. simpl. rewrite lookup_union.
  destruct (set !! key), (fields d !! key); reflexivity.
Qed.

(** C3 (as amended): for an existing note, the update with the payload
    [{"title": "new"}] succeeds, sets the stored record's [title] to
    ["new"], and changes no field of that record other than [title] and
    [updated_at]; the identifier and every other record stay as they
    were. *)
Theorem update_title_changes_title_and_updated_at
    (note_id : string) (o : objectid) (st : mongo) (l1 l2 : list doc) (d : doc) :
  fault st = None -> ObjectId note_id = inr o ->
  note st = (l1 ++ d :: l2)%list -> _id d = o -> (forall x, x ∈ l1 -> _id x <> o) ->
  exists d' st',
    update_note note_id {[ "title" := VStr "new" ]} (Some st)
      = (Return {[ "ok" := VBool true ]}, Some st') /\
    note st' = (l1 ++ d' :: l2)%list /\
    _id d' = _id d /\
    get d' "title" = Some (VStr "new") /\
    forall key, key <> "title" -> key <> "updated_at" -> get d' key = get d key.
Proof.
  intros Hf Hid Hst Hd Hl1.
  eexists _, _. split; [by apply (update_note_found _ o _ st l1 l2 d)|].
  split; [reflexivity|]. split; [reflexivity|].
  rewrite !apply_set_get. unfold set_of. simpl.
  split; [reflexivity|].
  intros key H1 H2. rewrite apply_set_get.
  rewrite lookup_insert_ne by congruence.
  rewrite lookup_delete, lookup_singleton_ne by congruence.
  by case_decide.
Qed.


(** C5 (as amended): with a reachable store and a well-formed identifier,
    [delete_note] and [update_note] answer 404 exactly when the count
    returned by their one store operation ([deleted_count],
    [matched_count]) is 0.  When no stored record has the identifier,
    that is the case for the delete, and for the update with every payload
    that the driver can encode and whose keys are plain field names; the
    operation is the only call sent to the store.  An update with a
    payload that the driver cannot encode answers 500 instead. *)
Theorem unknown_id_is_not_found
    (note_id : string) (o : objectid) (payload : gmap string value) (st : mongo) :
  fault st = None -> ObjectId note_id = inr o ->
  ((exists t db', delete_note note_id (Some st) = (Raise (HTTPException 404 t), db'))
     <-> fst (delete_one o st) = inr {| deleted_count := 0 |}) /\
  ((exists t db', update_note note_id payload (Some st) = (Raise (HTTPException 404 t), db'))
     <-> fst (update_one o (set_of payload) st) = inr {| matched_count := 0 |}) /\
  ((forall d, d ∈ note st -> _id d <> o) ->
     delete_note note_id (Some st)
       = (Raise (HTTPException 404 (Text "Note not found")),
          Some (log (CDeleteOne "note" o) st)) /\
     (accepted (set_of payload) = true ->
      update_note note_id payload (Some st)
        = (Raise (HTTPException 404 (Text "Note not found")),
           Some (log (CUpdateOne "note" o (set_of payload)) st))) /\
     (encodable (set_of payload) = false ->
      update_note note_id payload (Some st)
        = (Raise (HTTPException 500 (Str EncodingError)),
           Some (log (CUpdateOne "note" o (set_of payload)) st)))).
Proof.
  intros Hf Hid. split; [|split].
  - rewrite delete_note_unfold, Hid. unfold delete_one. rewrite Hf.
    destruct (remove_first o (note st)); simpl; split;
      try reflexivity; try discriminate; eauto.
    intros (t & db' & [=]).
  - rewrite update_note_unfold, Hid.
    destruct (update_one o (set_of payload) st) as [[e|[n]] st'] eqn:Hup; simpl.
    + split; [intros (t & db' & [=]) | discriminate].
    + destruct (n =? 0) eqn:Hn; simpl.
      * apply Z.eqb_eq in Hn as ->. split; eauto.
      * split; [intros (t & db' & [=]) | intros [= ->]; discriminate].
  - intros Habs. split; [|split].
    + rewrite delete_note_unfold, Hid. unfold delete_one.
      by rewrite Hf, (remove_first_absent o (note st)).
    + intros Hacc. by apply update_note_not_found.
    + intros Henc. by apply update_note_unencodable.
Qed.

(** C7: the ["_id"] key is taken out of the payload before it is applied:
    whatever value a payload gives to ["_id"], the update behaves as
    without it, the [$set] document has no ["_id"], and in every case the
    stored records keep their identifiers, in the same order; the handler
    sends the store at most the one [update_one] call. *)
Theorem update_keeps_identity
    (note_id : string) (payload : gmap string value) (db : db_handle) :
  (forall v, update_note note_id (<[ "_id" := v ]> payload) db
             = update_note note_id payload db) /\
  set_of payload !! "_id" = None /\
  (db = None -> snd (update_note note_id payload db) = None) /\
  (forall st, db = Some st ->
     exists st', snd (update_note note_id payload db) = Some st' /\
       List.map _id (note st') = List.map _id (note st) /\
       (calls st' = calls st \/
        exists o, calls st' = (calls st ++ [CUpdateOne "note" o (set_of payload)])%list)).
Proof.
  split; [|split; [apply set_of_no_id|split]].
  - intros v. rewrite !update_note_unfold.
    assert (set_of (<[ "_id" := v ]> payload) = set_of payload) as ->; [|reflexivity].
    unfold set_of. simpl. rewrite delete_insert_eq. reflexivity.
  - intros ->. reflexivity.
  - intros st ->. rewrite update_note_unfold.
    destruct (ObjectId note_id) as [e|o]; [eauto|].
    unfold update_one. destruct (fault st); [simpl; eauto 10|].
    destruct (negb (encodable (set_of payload))); [simpl; eauto 10|].
    destruct (set_error (paths st) (set_of payload)); [simpl; eauto 10|].
    destruct (update_first o _ (note st)) as [[m|l]|] eqn:Hup;
      try (simpl; eauto 10).
    eexists. split; [reflexivity|]. simpl.
    split; [eapply update_first_ids; [|eassumption]; apply apply_update_id | eauto].
Qed.

(** C8: an identifier that [ObjectId] does not parse makes [delete_note]
    and [update_note] raise HTTP 500 (never 404); the store is not called
    and stays exactly as it was. *)
Theorem malformed_id_fails
    (note_id : string) (payload : gmap string value) (db : db_handle) :
  (forall o, ObjectId note_id <> inr o) ->
  (exists t, delete_note note_id db = (Raise (HTTPException 500 t), db)) /\
  (exists t, update_note note_id payload db = (Raise (HTTPException 500 t), db)).
Proof.
  intros Hbad. rewrite delete_note_unfold, update_note_unfold.
  destruct db as [st|]; [|eauto].
  destruct (ObjectId note_id) as [e|o]; [eauto|].
  exfalso. by apply (Hbad o).
Qed.

Lemma update_title_changes_title_and_updated_at_witness :
  exists d' st',
    update_note id_B {[ "title" := VStr "new" ]} (Some store_ABC)
      = (Return {[ "ok" := VBool true ]}, Some st') /\
    note st' = ([note_A] ++ d' :: [note_C])%list /\
    _id d' = _id note_B /\
    get d' "title" = Some (VStr "new") /\
    forall key, key <> "title" -> key <> "updated_at" -> get d' key = get note_B key.
Proof.
  apply (update_title_changes_title_and_updated_at id_B (Oid id_B) store_ABC
           [note_A] [note_C] note_B); try reflexivity.
  intros x Hx. apply list_elem_of_singleton in Hx. subst x. discriminate.
Defined.

(** C3 (as stated) fails: after the update of note A with [{"title": "new"}]
    its [updated_at], which was 5, is [null]. *)
Lemma update_title_also_resets_updated_at :
  exists d' st',
    update_note id_A {[ "title" := VStr "new" ]} (Some store_ABC)
      = (Return {[ "ok" := VBool true ]}, Some st') /\
    note st' = [d'; note_B; note_C] /\
    get note_A "updated_at" = Some (VInt 5) /\
    get d' "updated_at" = Some VNull /\
    ~ only_title_changed note_A d'.
Proof.
  eexists _, _. split; [vm_compute; reflexivity|].
  split; [reflexivity|]. split; [reflexivity|]. split; [reflexivity|].
  intros [_ H]. specialize (H "updated_at"). vm_compute in H.
  assert (Some VNull = Some (VInt 5)) by (apply H; discriminate). discriminate.
Qed.



Lemma unknown_id_is_not_found_witness :
  ((exists t db', delete_note id_D (Some store_ABC) = (Raise (HTTPException 404 t), db'))
     <-> fst (delete_one (Oid id_D) store_ABC) = inr {| deleted_count := 0 |}) /\
  ((exists t db', update_note id_D {[ "title" := VStr "new" ]} (Some store_ABC)
                  = (Raise (HTTPException 404 t), db'))
     <-> fst (update_one (Oid id_D) (set_of {[ "title" := VStr "new" ]}) store_ABC)
         = inr {| matched_count := 0 |}) /\
  ((forall d, d ∈ note store_ABC -> _id d <> Oid id_D) ->
     delete_note id_D (Some store_ABC)
       = (Raise (HTTPException 404 (Text "Note not found")),
          Some (log (CDeleteOne "note" (Oid id_D)) store_ABC)) /\
     (accepted (set_of {[ "title" := VStr "new" ]}) = true ->
      update_note id_D {[ "title" := VStr "new" ]} (Some store_ABC)
        = (Raise (HTTPException 404 (Text "Note not found")),
           Some (log (CUpdateOne "note" (Oid id_D) (set_of {[ "title" := VStr "new" ]}))
                   store_ABC))) /\
     (encodable (set_of {[ "title" := VStr "new" ]}) = false ->
      update_note id_D {[ "title" := VStr "new" ]} (Some store_ABC)
        = (Raise (HTTPException 500 (Str EncodingError)),
           Some (log (CUpdateOne "note" (Oid id_D) (set_of {[ "title" := VStr "new" ]}))
                   store_ABC)))).
Proof.
  apply (unknown_id_is_not_found id_D (Oid id_D) {[ "title" := VStr "new" ]} store_ABC);
    reflexivity.
Defined.

(** C5 (as stated) fails: no stored record has the identifier, and the
    update with the payload [{"created_at": 2^63}] answers 500, not 404. *)
Lemma unknown_id_with_unencodable_payload_is_500 :
  (forall d, d ∈ note store_ABC -> _id d <> Oid id_D) /\
  ObjectId id_D = inr (Oid id_D) /\
  exists db',
    update_note id_D {[ "created_at" := VInt 9223372036854775808 ]} (Some store_ABC)
      = (Raise (HTTPException 500 (Str EncodingError)), db').
Proof.
  split; [|split; [reflexivity|]].
  - intros d Hd. unfold store_ABC in Hd. simpl in Hd.
    repeat (apply elem_of_cons in Hd as [->|Hd]; [discriminate|]).
    by apply elem_of_nil in Hd.
  - eexists. vm_compute. reflexivity.
Qed.

Lemma malformed_id_fails_witness :
  (exists t, delete_note "abc" (Some store_ABC) = (Raise (HTTPException 500 t), Some store_ABC)) /\
  (exists t, update_note "abc" {[ "title" := VStr "new" ]} (Some store_ABC)
             = (Raise (HTTPException 500 t), Some store_ABC)).
Proof.
  apply (malformed_id_fails "abc" {[ "title" := VStr "new" ]} (Some store_ABC)).
  intros o H. vm_compute in H. discriminate H.
Defined.

(** ** The health probe *)

Lemma take_chars_count (n : nat) (s : string) :
  char_count (take_chars n s) = Nat.min n (char_count s).
Proof.
  revert n. induction s as [|c s IH]; intros n; simpl.
  - by destruct n.
  - destruct (is_continuation c) eqn:Hc; simpl.
    + rewrite Hc. apply IH.
    + destruct n as [|n]; simpl; [reflexivity|]. by rewrite Hc, IH.
Qed.

Lemma take_chars_first (n : nat) (s : string) : first_chars n s (take_chars n s).
Proof.
  unfold first_chars. revert n. induction s as [|c s IH]; intros n.
  - exists EmptyString. by destruct n.
  - simpl. destruct (is_continuation c) eqn:Hc.
    + destruct (IH n) as (rest & Hs & Hn & Hrest). exists rest. simpl.
      rewrite Hc. split; [|by split].
      change (String c s = String c (String.append (take_chars n s) rest)).
      f_equal. exact Hs.
    + destruct n as [|n].
      * exists (String c s). simpl. by rewrite Hc.
      * destruct (IH n) as (rest & Hs & Hn & Hrest). exists rest. simpl.
        rewrite Hc. split; [|split; [by rewrite Hn | exact Hrest]].
        change (String c s = String c (String.append (take_chars n s) rest)).
        f_equal. exact Hs.
Qed.

(** The cut counts characters, not bytes. *)
Lemma take_chars_accents : take_chars 2 "héllo" = "hé" /\ String.length "hé" = 3%nat.
Proof. split; reflexivity. Qed.

(** C6: [test_database] returns for every state of [db] and never raises:
    a failure of [list_collection_names] ends up in the body.  The
    ["database"] field is "Connected" (with the collection names) when the
    call succeeds, "Not Connected" when [db] is [None], and otherwise
    "Error: " followed by the first 120 characters of the error's text. *)
Theorem test_database_never_raises (db : db_handle) :
  exists body db' form,
    test_database db = (Return body, db') /\
    body !! "backend" = Some (VStr "✅ Running") /\
    body !! "database" = Some (VStr form) /\
    database_form form /\
    match db with
    | None => form = "❌ Not Connected" /\ db' = None
    | Some st =>
        match fault st with
        | None =>
            form = "✅ Connected" /\
            body !! "collections" = Some (VList (collection_names st))
        | Some e =>
            exists msg, form = "❌ Error: " ++ msg /\
              first_chars 120 e msg /\
              body !! "collections" = None
        end
    end.
Proof.
  unfold test_database, list_collection_names. destruct db as [st|].
  - destruct (fault st) as [e|].
    + eexists _, _, _. split; [reflexivity|]. split; [reflexivity|].
      split; [reflexivity|]. split; [constructor|].
      exists (take_chars 120 e). split; [reflexivity|].
      split; [apply take_chars_first | reflexivity].
    + eexists _, _, _. split; [reflexivity|]. split; [reflexivity|].
      split; [reflexivity|]. split; [constructor|]. split; reflexivity.
  - eexists _, _, _. split; [reflexivity|]. split; [reflexivity|].
    split; [reflexivity|]. split; [constructor|]. split; reflexivity.
Qed.

(** ** Serialization *)

Lemma NoteOut_init_inv (i : string) (t c g k p m : value) (n : Schema.NoteOut) :
  Schema.NoteOut_init i t c g k p m = inr n ->
  exists t' c' g' k' p' m',
    Schema.as_str t = Some t' /\ Schema.as_str c = Some c' /\
    Schema.as_list_str g = Some g' /\ Schema.as_optional_str k = Some k' /\
    Schema.as_bool p = Some p' /\ Schema.as_optional_str m = Some m' /\
    n = Schema.MkNoteOut i t' c' g' k' p' m'.
Proof.
  unfold Schema.NoteOut_init.
  destruct (Schema.as_str t), (Schema.as_str c), (Schema.as_list_str g),
    (Schema.as_optional_str k), (Schema.as_bool p), (Schema.as_optional_str m);
    intros [= <-]. eauto 15.
Qed.

Lemma serialize_note_defaults (d : doc) (n : Schema.NoteOut) :
  serialize_note d = inr n -> defaults_filled d n.
Proof.
  intros H. apply NoteOut_init_inv in H
    as (t' & c' & g' & k' & p' & m' & Ht & Hc & Hg & _ & Hp & _ & ->).
  unfold get_or in *. unfold defaults_filled. simpl.
  split; [reflexivity|].
  repeat split; intros; repeat match goal with
    | E : get d ?k = _ , H : context [get d ?k] |- _ => rewrite E in H
    end; simpl in *; congruence.
Qed.

Lemma serialize_note_typed (d : doc) (n : Schema.NoteOut) :
  serialize_note d = inr n ->
  absent_or is_str (get d "title") = true /\
  absent_or is_str (get d "content") = true /\
  absent_or is_list (get d "tags") = true.
Proof.
  intros H. apply NoteOut_init_inv in H
    as (t' & c' & g' & k' & p' & m' & Ht & Hc & Hg & _ & _ & _ & _).
  unfold get_or in *.
  destruct (get d "title") as [[]|], (get d "content") as [[]|], (get d "tags") as [[]|];
    simpl in *; try discriminate; auto.
Qed.

Lemma serialize_note_defined (d : doc) :
  schema_typed d = true -> exists n, serialize_note d = inr n.
Proof.
  unfold schema_typed, serialize_note, get_or.
  intros H. repeat (apply andb_true_iff in H as [H ?]).
  destruct (get d "title") as [[]|]; try discriminate;
  destruct (get d "content") as [[]|]; try discriminate;
  destruct (get d "tags") as [[]|]; try discriminate;
  destruct (get d "color") as [[]|]; try discriminate;
  destruct (get d "is_pinned") as [[]|]; try discriminate;
  destruct (get d "mood") as [[]|]; try discriminate;
  simpl; eauto.
Qed.

Lemma serialize_all_Forall2 (ds : list doc) (ns : list Schema.NoteOut) :
  serialize_all ds = inr ns <-> Forall2 (fun d n => serialize_note d = inr n) ds ns.
Proof.
  revert ns. induction ds as [|d ds IH]; simpl; intros ns.
  - split; [intros [= <-]; constructor | intros H; by inversion H].
  - destruct (serialize_note d) as [e|n] eqn:Hd.
    + split; [discriminate | intros H; inversion H; congruence].
    + destruct (serialize_all ds) as [e|ns'] eqn:Hds.
      * split; [discriminate|]. intros H. inversion H as [|? n' ? ns'' H1 H2]; subst.
        apply IH in H2. discriminate.
      * split.
        -- intros [= <-]. constructor; [assumption | by apply IH].
        -- intros H. inversion H as [|? n' ? ns'' H1 H2]; subst.
           apply IH in H2. congruence.
Qed.

Lemma serialize_all_defined (ds : list doc) :
  Forall (fun d => schema_typed d = true) ds -> exists ns, serialize_all ds = inr ns.
Proof.
  induction 1 as [|d ds Hd _ [ns IH]]; simpl; [eauto|].
  destruct (serialize_note_defined d Hd) as [n ->]. rewrite IH. eauto.
Qed.

(** ** The filter of [list_notes] *)

Section ListingFacts.
Variable re : regex_engine.

Lemma field_is_bool (ov : option value) (p : bool) :
  field_is ov (VBool p) = true <-> ov = Some (VBool p).
Proof.
  destruct ov as [[| b | | | |l]|]; simpl; split; try congruence.
  - rewrite orb_false_r. intros H. apply Bool.eqb_prop in H. congruence.
  - intros [= ->]. rewrite orb_false_r. apply Bool.eqb_reflx.
  - intros H. exfalso. induction l; simpl in *; congruence.
Qed.

Lemma field_is_tag (ov : option value) (t : string) :
  absent_or is_list ov = true ->
  field_is ov (VStr t) = true <-> exists l, ov = Some (VList l) /\ t ∈ l.
Proof.
  destruct ov as [[| | | | |l]|]; simpl; try discriminate; intros _.
  - split.
    + intros H. exists l. split; [reflexivity|].
      apply existsb_exists in H as (s & Hs & Heq).
      apply String.eqb_eq in Heq. subst. by apply list_elem_of_In.
    + intros (l' & [= <-] & Hin). apply existsb_exists. exists t.
      split; [by apply list_elem_of_In | apply String.eqb_refl].
  - split; [discriminate | intros (l & [=] & _)].
Qed.

Lemma regex_on_text (p : string) (ov : option value) :
  absent_or is_str ov = true ->
  eval_cond re (CRegex p "i") ov = true <->
  exists s, ov = Some (VStr s) /\ regex_search re p "i" s = true.
Proof.
  destruct ov as [[| | |s| |]|]; simpl; try discriminate; intros _.
  - split; [eauto | intros (s' & [= <-] & H); exact H].
  - split; [discriminate | intros (s & [=] & _)].
Qed.

Lemma matches_build_filter (tag q : option string) (pinned : option bool) (d : doc) :
  matches re (build_filter tag q pinned) d = true <->
  (forall t, tag = Some t -> t <> "" -> field_is (get d "tags") (VStr t) = true) /\
  (forall p, pinned = Some p -> field_is (get d "is_pinned") (VBool p) = true) /\
  (forall p, q = Some p -> p <> "" ->
     eval_cond re (CRegex p "i") (get d "title") = true \/
     eval_cond re (CRegex p "i") (get d "content") = true).
Proof.
  unfold build_filter, matches, set_item, truthy.
  destruct tag as [t|]; [destruct (String.eqb_spec t "") as [->|Ht]|];
  (destruct pinned as [b|]);
  (destruct q as [p|]; [destruct (String.eqb_spec p "") as [->|Hp]|]);
  simpl; unfold eval_clause, eval_alt; simpl;
  rewrite ?andb_true_r, ?orb_false_r, ?andb_true_iff, ?orb_true_iff;
  (split;
   [ intros H; repeat split; intros; simplify_eq; tauto
   | intros (H1 & H2 & H3);
     repeat match goal with
       | |- _ /\ _ => split
       | |- true = true => reflexivity
       | |- field_is _ (VStr _) = true => by apply H1
       | |- field_is _ (VBool _) = true => by apply H2
       | |- _ \/ _ => by apply H3
       end ]).
Qed.

(** A selected document matches the filter; a document that matches and
    can be serialized is selected. *)
Lemma selected_matches (tag q : option string) (pinned : option bool) (d : doc) :
  selected (fun p s => regex_search re p "i" s) tag q pinned d ->
  matches re (build_filter tag q pinned) d = true.
Proof.
  intros (H1 & H2 & H3). apply matches_build_filter. repeat split.
  - intros t Ht Hne. destruct (H1 t Ht Hne) as (l & Hl & Hin).
    apply field_is_tag; [by rewrite Hl | eauto].
  - intros p Hp. apply field_is_bool. by apply H2.
  - intros p Hp Hne. destruct (H3 p Hp Hne) as [(s & Hs & Hhit)|(s & Hs & Hhit)];
      [left | right]; (apply regex_on_text; [by rewrite Hs | eauto]).
Qed.

Lemma matches_selected (tag q : option string) (pinned : option bool)
    (d : doc) (n : Schema.NoteOut) :
  serialize_note d = inr n ->
  matches re (build_filter tag q pinned) d = true ->
  selected (fun p s => regex_search re p "i" s) tag q pinned d.
Proof.
  intros Hser Hm. apply serialize_note_typed in Hser as (Ht & Hc & Hg).
  apply matches_build_filter in Hm as (H1 & H2 & H3). repeat split.
  - intros t Htag Hne. apply field_is_tag; auto.
  - intros p Hp. apply field_is_bool. auto.
  - intros p Hq Hne. destruct (H3 p Hq Hne) as [H|H]; [left | right];
      (eapply regex_on_text; [|exact H]); assumption.
Qed.

(** ** [list_notes], step by step *)

Lemma list_notes_unfold (tag q : option string) (pinned : option bool) (db : db_handle) :
  list_notes re tag q pinned db =
  match db with
  | None => (Raise (HTTPException 500 (Str (Exception "Database not available"))), None)
  | Some st =>
      match find re "note" (build_filter tag q pinned) st with
      | (inl m, st') => (Raise (HTTPException 500 (Str (PyMongoError m))), Some st')
      | (inr docs, st') =>
          match py_sort sort_key docs with
          | None => (Raise (HTTPException 500 (Str TypeError)), Some st')
          | Some sorted =>
              match serialize_all sorted with
              | inl e => (Raise (HTTPException 500 (Str e)), Some st')
              | inr ns => (Return ns, Some st')
              end
          end
      end
  end.
Proof.
  unfold list_notes, get_documents, try_except, bind, require_db, on_store, lift, sort_docs,
    any_to_500, raise, ret.
  destruct db as [st|]; [|reflexivity]. simpl.
  destruct (find re "note" _ st) as [[m|docs] st']; [reflexivity|].
  destruct (py_sort sort_key docs) as [sorted|]; [|reflexivity].
  destruct (serialize_all sorted); reflexivity.
Qed.

Lemma list_notes_returns (tag q : option string) (pinned : option bool)
    (st : mongo) (ns : list Schema.NoteOut) (db' : db_handle) :
  list_notes re tag q pinned (Some st) = (Return ns, db') <->
  fault st = None /\ filter_error re (build_filter tag q pinned) = None /\
  db' = Some (log (CFind "note" (build_filter tag q pinned)) st) /\
  exists ds,
    py_sort sort_key (List.filter (matches re (build_filter tag q pinned)) (note st)) = Some ds /\
    serialize_all ds = inr ns.
Proof.
  rewrite list_notes_unfold. unfold find. simpl.
  destruct (fault st) as [e|]; [split; [discriminate | intros ([=] & _)]|].
  destruct (filter_error re _) as [e|]; [split; [discriminate | intros (_ & [=] & _)]|].
  destruct (py_sort sort_key _) as [sorted|];
    [|split; [discriminate | intros (_ & _ & _ & ds & [=] & _)]].
  destruct (serialize_all sorted) as [e|ns'] eqn:Hs.
  - split; [discriminate | intros (_ & _ & _ & ds & [= <-] & H); congruence].
  - split.
    + intros [= <- <-]. eauto 10.
    + intros (_ & _ & -> & ds & [= <-] & H). rewrite Hs in H. by injection H as ->.
Qed.
End ListingFacts.

Lemma StronglySorted_lookup {A : Type} (R : A -> A -> Prop) (l : list A)
    (i j : nat) (a b : A) :
  StronglySorted R l -> l !! i = Some a -> l !! j = Some b -> (i < j)%nat -> R a b.
Proof.
  intros HS. revert i j. induction HS as [|x l HS IH Hx]; intros i j Hi Hj Hij.
  - by rewrite lookup_nil in Hi.
  - destruct j as [|j]; [lia|]. simpl in Hj. destruct i as [|i]; simpl in Hi.
    + injection Hi as ->. rewrite Forall_forall in Hx. apply Hx.
      by apply list_elem_of_lookup_2 in Hj.
    + apply (IH i j); [assumption..|lia].
Qed.

Lemma elem_of_List_filter {A : Type} (f : A -> bool) (l : list A) (x : A) :
  x ∈ List.filter f l <-> x ∈ l /\ f x = true.
Proof. rewrite !list_elem_of_In. apply filter_In. Qed.

Section ListingClaims.
Variable re : regex_engine.

Lemma filter_error_build_filter (tag q : option string) (pinned : option bool) :
  (forall p, q = Some p -> p <> "" -> regex_check re p = None) ->
  filter_error re (build_filter tag q pinned) = None.
Proof.
  intros Hq. unfold build_filter, set_item, truthy.
  destruct tag as [t|]; [destruct (String.eqb_spec t "")|];
  (destruct pinned as [b|]);
  (destruct q as [p|]; [destruct (String.eqb_spec p "") as [->|Hp]|]);
  simpl; try reflexivity;
  unfold filter_error, clause_error; simpl; rewrite (Hq p eq_refl Hp); reflexivity.
Qed.

Lemma list_notes_defined (tag q : option string) (pinned : option bool) (st : mongo) :
  fault st = None ->
  (forall p, q = Some p -> p <> "" -> regex_check re p = None) ->
  Forall (fun d => schema_typed d = true) (note st) ->
  comparable sort_key (note st) ->
  exists ns, list_notes re tag q pinned (Some st)
             = (Return ns, Some (log (CFind "note" (build_filter tag q pinned)) st)).
Proof.
  intros Hf Hq Hty Hcmp.
  destruct (py_sort_defined sort_key
              (List.filter (matches re (build_filter tag q pinned)) (note st))) as [ds Hds].
  { intros x y [Hx _]%elem_of_List_filter [Hy _]%elem_of_List_filter. by apply Hcmp. }
  destruct (serialize_all_defined ds) as [ns Hns].
  { rewrite Forall_forall in *. intros d Hd.
    rewrite (py_sort_perm _ _ _ Hds) in Hd. apply elem_of_List_filter in Hd as [Hd _]. auto. }
  exists ns. apply list_notes_returns.
  split; [assumption|]. split; [by apply filter_error_build_filter|]. eauto.
Qed.

Lemma selected_hit_ext (hit hit' : string -> string -> bool)
    (tag q : option string) (pinned : option bool) (d : doc) :
  (forall p, q = Some p -> forall s, hit p s = hit' p s) ->
  selected hit tag q pinned d <-> selected hit' tag q pinned d.
Proof.
  intros Hext. unfold selected.
  split; intros (H1 & H2 & H3); (split; [exact H1|]; split; [exact H2|]);
    intros p Hp Hne; destruct (H3 p Hp Hne) as [(s & Hs & Hh)|(s & Hs & Hh)];
    [left | right | left | right]; exists s; (split; [exact Hs|]);
    first [ by rewrite <- (Hext p Hp) | by rewrite (Hext p Hp) ].
Qed.

(** C1 (as amended): when the list operation returns, the notes it returns
    are the serializations of exactly the stored documents for which: the
    tag is absent or empty or an item of the stored tags, and [pinned] is
    absent or the stored [is_pinned] is that boolean, and [q] is absent or
    empty or the store's case-insensitive regular-expression search for
    [q] succeeds on the stored title or on the stored content (which, for
    a [q] the engine reads as plain text, is occurrence as a substring
    with letter case ignored).  It does return when the store is
    reachable, accepts the pattern, and holds documents that fit the
    schema and have comparable sort keys. *)
Theorem list_notes_selection
    (tag q : option string) (pinned : option bool) (st : mongo) :
  (fault st = None ->
   (forall p, q = Some p -> p <> "" -> regex_check re p = None) ->
   Forall (fun d => schema_typed d = true) (note st) ->
   comparable sort_key (note st) ->
   exists ns db', list_notes re tag q pinned (Some st) = (Return ns, db')) /\
  (forall ns db', list_notes re tag q pinned (Some st) = (Return ns, db') ->
   exists ds, serialize_all ds = inr ns /\
     (forall d, d ∈ ds <->
        d ∈ note st /\ selected (fun p s => regex_search re p "i" s) tag q pinned d) /\
     ((forall p, q = Some p -> plain_pattern re p) ->
      forall d, d ∈ ds <-> d ∈ note st /\ selected ci_occurs tag q pinned d)).
Proof.
  split.
  { intros Hf Hq Hty Hcmp.
    destruct (list_notes_defined tag q pinned st Hf Hq Hty Hcmp) as [ns H]. eauto. }
  intros ns db' H. apply list_notes_returns in H as (_ & _ & _ & ds & Hsort & Hser).
  exists ds. split; [exact Hser|].
  assert (Hsel : forall d, d ∈ ds <->
            d ∈ note st /\ selected (fun p s => regex_search re p "i" s) tag q pinned d).
  { intros d. rewrite (py_sort_perm _ _ _ Hsort), elem_of_List_filter. split.
    - intros [Hd Hm]. split; [exact Hd|].
      assert (Hin : d ∈ ds) by (rewrite (py_sort_perm _ _ _ Hsort); by apply elem_of_List_filter).
      apply serialize_all_Forall2 in Hser.
      apply list_elem_of_lookup_1 in Hin as [i Hi].
      destruct (Forall2_lookup_l _ _ _ _ _ Hser Hi) as (n & _ & Hn).
      by eapply matches_selected.
    - intros [Hd Hs]. split; [exact Hd | by apply selected_matches]. }
  split; [exact Hsel|].
  intros Hplain d. rewrite Hsel. apply and_iff_compat_l, selected_hit_ext.
  intros p Hp s. apply (Hplain p Hp).
Qed.
End ListingClaims.

Lemma sample_notes_distinct : NoDup [note_A; note_B; note_C].
Proof.
  repeat constructor; rewrite ?elem_of_cons, ?elem_of_nil;
    intros H; repeat destruct H as [H|H]; try exact H;
    apply (f_equal _id) in H; discriminate H.
Qed.

Lemma elem_of_three {A : Type} (x a b c : A) : x ∈ [a; b; c] -> x = a \/ x = b \/ x = c.
Proof. rewrite !elem_of_cons, elem_of_nil. tauto. Qed.

Lemma not_elem_of_two {A : Type} (x a b : A) : x ∉ [a; b] -> x <> a /\ x <> b.
Proof. rewrite !elem_of_cons, elem_of_nil. tauto. Qed.

(** The six orders in which a collection can hold the notes A, B and C. *)
Lemma orders_of_ABC (l : list doc) :
  l ≡ₚ [note_A; note_B; note_C] ->
  l ∈ [ [note_A; note_B; note_C]; [note_A; note_C; note_B];
        [note_B; note_A; note_C]; [note_B; note_C; note_A];
        [note_C; note_A; note_B]; [note_C; note_B; note_A] ].
Proof.
  intros H. pose proof (Permutation_length H) as Hlen.
  destruct l as [|x [|y [|z [|w l]]]]; try discriminate Hlen.
  assert (Hnd : NoDup [x; y; z]) by (rewrite H; apply sample_notes_distinct).
  assert (Hx : x ∈ [note_A; note_B; note_C]) by (rewrite <- H, !elem_of_cons; tauto).
  assert (Hy : y ∈ [note_A; note_B; note_C]) by (rewrite <- H, !elem_of_cons; tauto).
  assert (Hz : z ∈ [note_A; note_B; note_C]) by (rewrite <- H, !elem_of_cons; tauto).
  apply NoDup_cons in Hnd as [Hxy Hnd]. apply NoDup_cons in Hnd as [Hyz _].
  apply not_elem_of_two in Hxy as [Hxy Hxz].
  assert (Hyz' : y <> z) by (intros ->; apply Hyz; by left).
  apply elem_of_three in Hx, Hy, Hz.
  destruct Hx as [->|[->| ->]], Hy as [->|[->| ->]], Hz as [->|[->| ->]];
    try congruence; rewrite !elem_of_cons; tauto.
Qed.

Section OrderClaims.
Variable re : regex_engine.

Lemma pinned_key (d : doc) : fst (sort_key d) = negb (pinned_doc d).
Proof. reflexivity. Qed.

Lemma serialized_pinned (d : doc) (n : Schema.NoteOut) :
  serialize_note d = inr n -> absent_or is_bool (get d "is_pinned") = true ->
  Schema.is_pinned n = pinned_doc d.
Proof.
  intros Hn Hb. apply serialize_note_defaults in Hn as (_ & _ & _ & _ & H0 & _ & _ & _ & H1).
  unfold pinned_doc, get_or. destruct (get d "is_pinned") as [[]|]; try discriminate Hb.
  - by rewrite (H1 b).
  - by rewrite H0.
Qed.

(** C2 (as amended): the notes that the list operation returns follow a
    stable sort of the matching documents (taken in the store's order) on
    the key [(not is_pinned, created_at)] read from the stored document, a
    document without [created_at] counting as 0: the result is a
    rearrangement of the matching documents, no key sorts after a later
    one, documents with equal keys keep their order, every document whose
    stored [is_pinned] is truthy precedes every one whose stored
    [is_pinned] is falsy or absent, and among documents of the same pinned
    state [created_at] never decreases.  When every stored [is_pinned] is
    a boolean or absent, every returned note with [is_pinned] true
    precedes every returned note with [is_pinned] false.  For the notes
    A (pinned, 5), B (unpinned, 1) and C (pinned, 2), in whatever order
    the store holds them, the result is C, A, B. *)
Theorem list_notes_order
    (tag q : option string) (pinned : option bool) (st : mongo) :
  (fault st = None -> note st ≡ₚ [note_A; note_B; note_C] ->
     fst (list_notes re None None None (Some st)) = Return [out_C; out_A; out_B]) /\
  (forall ns db', list_notes re tag q pinned (Some st) = (Return ns, db') ->
   exists ds, serialize_all ds = inr ns /\
     ds ≡ₚ List.filter (matches re (build_filter tag q pinned)) (note st) /\
     StronglySorted (fun a b => key_le (sort_key a) (sort_key b)) ds /\
     stable_wrt sort_key (List.filter (matches re (build_filter tag q pinned)) (note st)) ds /\
     (forall i j a b, ds !! i = Some a -> ds !! j = Some b ->
        pinned_doc a = true -> pinned_doc b = false -> (i < j)%nat) /\
     (forall i j a b, ds !! i = Some a -> ds !! j = Some b -> (i < j)%nat ->
        pinned_doc a = pinned_doc b ->
        py_eq (created_at_key b) (created_at_key a) = true \/
        py_lt (created_at_key b) (created_at_key a) = Some false) /\
     ((forall d, d ∈ note st -> absent_or is_bool (get d "is_pinned") = true) ->
      forall i j a b, ns !! i = Some a -> ns !! j = Some b ->
        Schema.is_pinned a = true -> Schema.is_pinned b = false -> (i < j)%nat)).
Proof.
  split.
  { intros Hf Hl. apply orders_of_ABC in Hl.
    destruct st as [f cn l cs pe]. simpl in Hf, Hl. subst f.
    rewrite !elem_of_cons in Hl.
    destruct Hl as [->|[->|[->|[->|[->|[->|Hl]]]]]]; try reflexivity.
    by apply elem_of_nil in Hl. }
  intros ns db' H. apply list_notes_returns in H as (_ & _ & _ & ds & Hsort & Hser).
  exists ds. split; [exact Hser|].
  pose proof (py_sort_sorted _ _ _ Hsort) as HS.
  assert (Hpin : forall i j a b, ds !! i = Some a -> ds !! j = Some b ->
            pinned_doc a = true -> pinned_doc b = false -> (i < j)%nat).
  { intros i j a b Hi Hj Ha Hb.
    destruct (lt_eq_lt_dec i j) as [[Hlt|Heq]|Hgt]; [exact Hlt| |]; exfalso.
    + subst j. rewrite Hi in Hj. injection Hj as ->. congruence.
    + pose proof (StronglySorted_lookup _ _ _ _ _ _ HS Hj Hi Hgt) as Hle.
      unfold key_le, tuple_lt in Hle. rewrite !pinned_key, Ha, Hb in Hle.
      simpl in Hle. discriminate. }
  split; [by eapply py_sort_perm|]. split; [exact HS|].
  split; [by apply py_sort_stable|]. split; [exact Hpin|]. split.
  - intros i j a b Hi Hj Hij Hab.
    pose proof (StronglySorted_lookup _ _ _ _ _ _ HS Hi Hj Hij) as Hle.
    unfold key_le in Hle.
    rewrite (surjective_pairing (sort_key a)), (surjective_pairing (sort_key b)) in Hle.
    apply tuple_nlt_inv in Hle as [[Ha Hb]|[_ Hle]]; [|exact Hle].
    rewrite !pinned_key, Hab in *. destruct (pinned_doc b); discriminate.
  - intros Hbool i j a b Hi Hj Ha Hb.
    apply serialize_all_Forall2 in Hser.
    destruct (Forall2_lookup_r _ _ _ _ _ Hser Hi) as (da & Hda & Hsa).
    destruct (Forall2_lookup_r _ _ _ _ _ Hser Hj) as (db & Hdb & Hsb).
    assert (Hin : forall d k, ds !! k = Some d -> d ∈ note st).
    { intros d k Hd. apply list_elem_of_lookup_2 in Hd.
      rewrite (py_sort_perm _ _ _ Hsort) in Hd. by apply elem_of_List_filter in Hd as [Hd _]. }
    apply (Hpin i j da db Hda Hdb).
    + rewrite <- (serialized_pinned da a Hsa); [exact Ha|]. by apply Hbool, (Hin da i).
    + rewrite <- (serialized_pinned db b Hsb); [exact Hb|]. by apply Hbool, (Hin db j).
Qed.

Lemma without_tags_get (d : doc) (key : string) :
  key <> "tags" -> get (without_tags d) key = get d key.
Proof. intros H. unfold get, without_tags. simpl. by rewrite lookup_delete_ne. Qed.

Lemma with_empty_tags_get (d : doc) (key : string) :
  key <> "tags" -> get (with_empty_tags d) key = get d key.
Proof. intros H. unfold get, with_empty_tags. simpl. by rewrite lookup_insert_ne. Qed.

Lemma without_tags_tags (d : doc) : get (without_tags d) "tags" = None.
Proof. unfold get, without_tags. simpl. apply lookup_delete_eq. Qed.

Lemma with_empty_tags_tags (d : doc) : get (with_empty_tags d) "tags" = Some (VList []).
Proof. unfold get, with_empty_tags. simpl. apply lookup_insert_eq. Qed.

Lemma no_tags_like_empty_tags (d : doc) :
  serialize_note (without_tags d) = serialize_note (with_empty_tags d) /\
  sort_key (without_tags d) = sort_key (with_empty_tags d) /\
  forall tag q pinned,
    matches re (build_filter tag q pinned) (without_tags d)
    = matches re (build_filter tag q pinned) (with_empty_tags d).
Proof.
  split; [|split].
  - unfold serialize_note, get_or.
    rewrite without_tags_tags, with_empty_tags_tags.
    rewrite !without_tags_get, !with_empty_tags_get by discriminate. reflexivity.
  - unfold sort_key, get_or.
    rewrite !without_tags_get, !with_empty_tags_get by discriminate. reflexivity.
  - intros tag q pinned. unfold build_filter, matches, set_item, truthy.
    destruct tag as [t|]; [destruct (String.eqb t "")|];
    (destruct pinned as [b|]); (destruct q as [p|]; [destruct (String.eqb p "")|]);
    simpl; unfold eval_clause, eval_alt; simpl;
    rewrite ?without_tags_tags, ?with_empty_tags_tags;
    rewrite ?without_tags_get, ?with_empty_tags_get by discriminate; reflexivity.
Qed.

(** C9: every note that the list operation returns is the serialization of
    a stored document, with a string for [title] and for [content] (the
    empty string when the field is absent), a list for [tags] (empty when
    absent), and a boolean for [is_pinned] (false when absent); a document
    without [tags] serializes, sorts and is filtered exactly as with an
    empty [tags] list; and every document that fits the schema does
    serialize. *)
Theorem listed_notes_are_concrete
    (tag q : option string) (pinned : option bool) (st : mongo) :
  (forall d, schema_typed d = true ->
     exists n, serialize_note d = inr n /\ defaults_filled d n) /\
  (forall d,
     serialize_note (without_tags d) = serialize_note (with_empty_tags d) /\
     sort_key (without_tags d) = sort_key (with_empty_tags d) /\
     forall tag' q' pinned',
       matches re (build_filter tag' q' pinned') (without_tags d)
       = matches re (build_filter tag' q' pinned') (with_empty_tags d)) /\
  (forall ns db', list_notes re tag q pinned (Some st) = (Return ns, db') ->
   exists ds,
     Forall2 (fun d n => d ∈ note st /\ serialize_note d = inr n /\ defaults_filled d n) ds ns).
Proof.
  split; [|split; [apply no_tags_like_empty_tags|]].
  - intros d Hd. destruct (serialize_note_defined d Hd) as [n Hn].
    exists n. split; [exact Hn | by apply serialize_note_defaults].
  - intros ns db' H. apply list_notes_returns in H as (_ & _ & _ & ds & Hsort & Hser).
    exists ds. apply serialize_all_Forall2 in Hser.
    assert (Hin : Forall (fun d => d ∈ note st) ds).
    { apply Forall_forall. intros d Hd. rewrite (py_sort_perm _ _ _ Hsort) in Hd.
      by apply elem_of_List_filter in Hd as [Hd _]. }
    clear Hsort. induction Hser as [|d n ds ns Hd _ IH]; constructor.
    + apply Forall_cons in Hin as [Hd' _].
      split; [exact Hd'|]. split; [exact Hd | by apply serialize_note_defaults].
    + apply IH. by apply Forall_cons in Hin as [_ Hin].
Qed.

(** C10: an empty [tag] and an empty [q] are no filter: the list operation
    does with them exactly what it does when the parameter is left out. *)
Theorem empty_string_is_no_filter
    (tag q : option string) (pinned : option bool) (db : db_handle) :
  list_notes re (Some "") q pinned db = list_notes re None q pinned db /\
  list_notes re tag (Some "") pinned db = list_notes re tag None pinned db /\
  build_filter (Some "") q pinned = build_filter None q pinned /\
  build_filter tag (Some "") pinned = build_filter tag None pinned.
Proof. repeat split. Qed.
End OrderClaims.

(** C1 (as stated) fails: asked for the tag [""], the list operation
    returns the notes A, B and C, none of which has [""] among its tags. *)
Lemma empty_tag_selects_untagged_notes :
  fst (list_notes substring_engine (Some "") None None (Some store_ABC))
    = Return [out_C; out_A; out_B] /\
  ~ claimed_selected (Some "") None None out_A.
Proof.
  split; [reflexivity|]. intros (H & _ & _).
  specialize (H "" eq_refl). simpl in H. by apply elem_of_nil in H.
Qed.

(** C2 (as stated) fails: an update stores the string ["no"] as note B's
    [is_pinned]; the listing then returns B, with [is_pinned] false, in
    front of the pinned notes C and A, because the sort reads the stored
    string as true. *)
Lemma unpinned_note_listed_before_pinned :
  exists st1,
    update_note id_B {[ "is_pinned" := VStr "no" ]} (Some store_ABC)
      = (Return {[ "ok" := VBool true ]}, Some st1) /\
    fst (list_notes substring_engine None None None (Some st1))
      = Return [out_B; out_C; out_A] /\
    Schema.is_pinned out_B = false /\ Schema.is_pinned out_C = true.
Proof.
  eexists. split; [vm_compute; reflexivity|]. split; [|split]; reflexivity.
Qed.

Lemma list_notes_selection_witness :
  exists ds, serialize_all ds = inr [out_A] /\
    (forall d, d ∈ ds <->
       d ∈ note store_ABC /\
       selected (fun p s => regex_search substring_engine p "i" s) None (Some "a") None d) /\
    ((forall p, Some "a" = Some p -> plain_pattern substring_engine p) ->
     forall d, d ∈ ds <-> d ∈ note store_ABC /\ selected ci_occurs None (Some "a") None d).
Proof.
  apply (proj2 (list_notes_selection substring_engine None (Some "a") None store_ABC)
           [out_A] (Some (log (CFind "note" (build_filter None (Some "a") None)) store_ABC))).
  reflexivity.
Defined.

Lemma list_notes_order_witness :
  exists ds, serialize_all ds = inr [out_C; out_A; out_B] /\
    ds ≡ₚ List.filter (matches substring_engine (build_filter None None None)) (note store_ABC) /\
    StronglySorted (fun a b => key_le (sort_key a) (sort_key b)) ds /\
    stable_wrt sort_key
      (List.filter (matches substring_engine (build_filter None None None)) (note store_ABC)) ds /\
    (forall i j a b, ds !! i = Some a -> ds !! j = Some b ->
       pinned_doc a = true -> pinned_doc b = false -> (i < j)%nat) /\
    (forall i j a b, ds !! i = Some a -> ds !! j = Some b -> (i < j)%nat ->
       pinned_doc a = pinned_doc b ->
       py_eq (created_at_key b) (created_at_key a) = true \/
       py_lt (created_at_key b) (created_at_key a) = Some false) /\
    ((forall d, d ∈ note store_ABC -> absent_or is_bool (get d "is_pinned") = true) ->
     forall i j a b, [out_C; out_A; out_B] !! i = Some a -> [out_C; out_A; out_B] !! j = Some b ->
       Schema.is_pinned a = true -> Schema.is_pinned b = false -> (i < j)%nat).
Proof.
  apply (proj2 (list_notes_order substring_engine None None None store_ABC)
           [out_C; out_A; out_B]
           (Some (log (CFind "note" (build_filter None None None)) store_ABC))).
  reflexivity.
Defined.

Lemma listed_notes_are_concrete_witness :
  exists ds,
    Forall2 (fun d n => d ∈ note store_ABC /\ serialize_note d = inr n /\ defaults_filled d n)
      ds [out_C; out_A; out_B].
Proof.
  apply (proj2 (proj2 (listed_notes_are_concrete substring_engine None None None store_ABC))
           [out_C; out_A; out_B]
           (Some (log (CFind "note" (build_filter None None None)) store_ABC))).
  reflexivity.
Defined.

(** ** Further properties of the handlers *)

Lemma remove_first_found (o : objectid) (l1 l2 : list doc) (d : doc) :
  _id d = o -> (forall x, x ∈ l1 -> _id x <> o) ->
  remove_first o (l1 ++ d :: l2) = Some (l1 ++ l2)%list.
Proof.
  intros Hd Hl1. induction l1 as [|x l1 IH]; simpl.
  - assert (H : objectid_eqb (_id d) o = true) by (by apply objectid_eqb_eq).
    by rewrite H.
  - assert (H : objectid_eqb (_id x) o = false) by (apply objectid_eqb_neq, Hl1; by left).
    rewrite H, IH; [reflexivity|]. intros y Hy. apply Hl1. by right.
Qed.

(** An update whose payload the driver can encode and whose keys are plain
    field names overwrites every field the payload names (other than
    ["_id"] and ["updated_at"]) with the payload's value, whatever its
    type, and leaves alone the fields the payload does not name. *)
Theorem update_overwrites_supplied_fields
    (note_id : string) (o : objectid) (payload : gmap string value)
    (st : mongo) (l1 l2 : list doc) (d : doc) :
  fault st = None -> ObjectId note_id = inr o -> accepted (set_of payload) = true ->
  note st = (l1 ++ d :: l2)%list -> _id d = o -> (forall x, x ∈ l1 -> _id x <> o) ->
  exists d' st',
    update_note note_id payload (Some st) = (Return {[ "ok" := VBool true ]}, Some st') /\
    note st' = (l1 ++ d' :: l2)%list /\ _id d' = _id d /\
    forall key, key <> "_id" -> key <> "updated_at" ->
      get d' key = match payload !! key with Some v => Some v | None => get d key end.
Proof.
  intros Hf Hid Hacc Hst Hd Hl1.
  eexists _, _. split; [by apply (update_note_found _ o _ st l1 l2 d)|].
  split; [reflexivity|]. split; [reflexivity|].
  intros key H1 H2. rewrite apply_set_get. unfold set_of. simpl.
  rewrite lookup_insert_ne by congruence. rewrite lookup_delete_ne by congruence.
  reflexivity.
Qed.

Lemma update_overwrites_supplied_fields_witness :
  exists d' st',
    update_note id_B {[ "color" := VInt 7 ]} (Some store_ABC)
      = (Return {[ "ok" := VBool true ]}, Some st') /\
    note st' = ([note_A] ++ d' :: [note_C])%list /\ _id d' = _id note_B /\
    forall key, key <> "_id" -> key <> "updated_at" ->
      get d' key = match ({[ "color" := VInt 7 ]} : gmap string value) !! key with
                   | Some v => Some v
                   | None => get note_B key
                   end.
Proof.
  apply (update_overwrites_supplied_fields id_B (Oid id_B) {[ "color" := VInt 7 ]}
           store_ABC [note_A] [note_C] note_B); try reflexivity.
  intros x Hx. apply list_elem_of_singleton in Hx. subst x. discriminate.
Defined.

(** Deleting an existing note answers [{"ok": true}] and removes that
    record and no other. *)
Theorem delete_removes_the_record
    (note_id : string) (o : objectid) (st : mongo) (l1 l2 : list doc) (d : doc) :
  fault st = None -> ObjectId note_id = inr o ->
  note st = (l1 ++ d :: l2)%list -> _id d = o -> (forall x, x ∈ l1 -> _id x <> o) ->
  delete_note note_id (Some st)
    = (Return {[ "ok" := VBool true ]},
       Some (with_note (l1 ++ l2) (log (CDeleteOne "note" o) st))).
Proof.
  intros Hf Hid Hst Hd Hl1. rewrite delete_note_unfold, Hid. unfold delete_one.
  rewrite Hf, Hst, (remove_first_found o l1 l2 d Hd Hl1). reflexivity.
Qed.

Lemma delete_removes_the_record_witness :
  delete_note id_B (Some store_ABC)
    = (Return {[ "ok" := VBool true ]},
       Some (with_note ([note_A] ++ [note_C]) (log (CDeleteOne "note" (Oid id_B)) store_ABC))).
Proof.
  apply (delete_removes_the_record id_B (Oid id_B) store_ABC [note_A] [note_C] note_B);
    try reflexivity.
  intros x Hx. apply list_elem_of_singleton in Hx. subst x. discriminate.
Defined.

Section FurtherListing.
Variable re : regex_engine.

(** Listing never changes a stored record or the store's state other than
    by the one [find] it sends, whether it returns or raises. *)
Theorem list_notes_reads_only
    (tag q : option string) (pinned : option bool) (st : mongo) :
  snd (list_notes re tag q pinned (Some st))
    = Some (log (CFind "note" (build_filter tag q pinned)) st).
Proof.
  rewrite list_notes_unfold. unfold find.
  destruct (fault st); [reflexivity|].
  destruct (filter_error re _); [reflexivity|].
  destruct (py_sort sort_key _) as [sorted|]; [|reflexivity].
  destruct (serialize_all sorted); reflexivity.
Qed.

(** A [pinned] filter compares with the stored field: a document without
    an [is_pinned] field matches neither [pinned=true] nor [pinned=false],
    although it serializes, whenever it does, with [is_pinned] false (and
    it does serialize when its other fields fit the schema). *)
Theorem pinned_filter_skips_missing_field
    (tag q : option string) (p : bool) (d : doc) :
  get d "is_pinned" = None ->
  matches re (build_filter tag q (Some p)) d = false /\
  (forall n, serialize_note d = inr n -> Schema.is_pinned n = false) /\
  (schema_typed d = true ->
     exists n, serialize_note d = inr n /\ Schema.is_pinned n = false).
Proof.
  intros H.
  assert (Hm : matches re (build_filter tag q (Some p)) d = false).
  { destruct (matches re (build_filter tag q (Some p)) d) eqn:Hm; [|reflexivity].
    apply matches_build_filter in Hm as (_ & H2 & _).
    specialize (H2 p eq_refl). apply field_is_bool in H2. congruence. }
  assert (Hp : forall n, serialize_note d = inr n -> Schema.is_pinned n = false).
  { intros n Hn. apply serialize_note_defaults in Hn as (_ & _ & _ & _ & H0 & _).
    by apply H0. }
  split; [exact Hm|]. split; [exact Hp|].
  intros Ht. destruct (serialize_note_defined d Ht) as [n Hn]. exists n. auto.
Qed.
End FurtherListing.

Lemma pinned_filter_skips_missing_field_witness :
  matches substring_engine (build_filter None None (Some false)) note_undated = false /\
  (forall n, serialize_note note_undated = inr n -> Schema.is_pinned n = false) /\
  (schema_typed note_undated = true ->
     exists n, serialize_note note_undated = inr n /\ Schema.is_pinned n = false).
Proof.
  apply (pinned_filter_skips_missing_field substring_engine None None false note_undated).
  reflexivity.
Defined.

(** ** When the sort raises *)

Lemma py_eq_refl (v : value) : py_eq v v = true.
Proof.
  destruct v as [| b | n | s | n | l]; unfold py_eq; simpl;
    rewrite ?Z.eqb_refl, ?String.eqb_refl; try reflexivity.
  by apply list_eqb_eq.
Qed.

Lemma tuple_lt_refl (a : bool * value) : tuple_lt a a = Some false.
Proof. unfold tuple_lt. by rewrite Bool.eqb_reflx, py_eq_refl. Qed.

Lemma py_lt_none_sym (a b : value) : py_lt a b = None -> py_lt b a = None.
Proof. destruct a, b; unfold py_lt; simpl; congruence. Qed.

Lemma tuple_lt_none_sym (a b : bool * value) : tuple_lt a b = None -> tuple_lt b a = None.
Proof.
  destruct a as [x u], b as [y v]. unfold tuple_lt. simpl.
  rewrite (py_eq_sym v u). destruct x, y; simpl; try congruence;
    destruct (py_eq u v); simpl; try congruence; apply py_lt_none_sym.
Qed.

Section SortRaises.
Context {A : Type} (key : A -> bool * value).

(** In a sorted list, everything behind the place of [x] is not below [x]. *)
Lemma insert_by_split_sorted (x : A) (l r : list A) :
  StronglySorted (fun a b => key_le (key a) (key b)) l ->
  insert_by key x l = Some r ->
  exists l1 l2, l = (l1 ++ l2)%list /\ r = (l1 ++ x :: l2)%list /\
    Forall (fun y => tuple_lt (key y) (key x) = Some true) l1 /\
    Forall (fun y => tuple_lt (key y) (key x) = Some false) l2.
Proof.
  intros HS H. apply insert_by_split in H as (l1 & l2 & -> & -> & Hlow & Hhd).
  exists l1, l2. repeat split; [exact Hlow|].
  apply StronglySorted_app in HS as (_ & _ & S2).
  destruct l2 as [|y l2]; [constructor|].
  specialize (Hhd y l2 eq_refl). apply StronglySorted_inv in S2 as [_ Hy].
  constructor; [exact Hhd|].
  eapply Forall_impl; [exact Hy|]. intros z Hz. simpl in Hz.
  apply (key_le_trans _ _ _ Hhd Hz).
Qed.


(** A sort that succeeds has compared, directly or through the order,
    every two keys. *)
Lemma py_sort_comparable (l r : list A) : py_sort key l = Some r -> comparable key l.
Proof.
  revert r. induction l as [|x l IH]; simpl; intros r H.
  - intros a b Ha. by apply elem_of_nil in Ha.
  - destruct (py_sort key l) as [r'|] eqn:Hl; try discriminate.
    pose proof (IH r' eq_refl) as Hcmp.
    apply (insert_by_split_sorted x r' r (py_sort_sorted key l r' Hl)) in H
      as (l1 & l2 & Hr' & _ & Hlow & Hhigh).
    assert (Hx : forall y, y ∈ l -> tuple_lt (key y) (key x) <> None).
    { intros y Hy. rewrite <- (py_sort_perm key l r' Hl), Hr' in Hy.
      rewrite Forall_forall in Hlow, Hhigh.
      apply elem_of_app in Hy as [Hy|Hy];
        [rewrite (Hlow y Hy) | rewrite (Hhigh y Hy)]; discriminate. }
    intros a b Ha Hb.
    apply elem_of_cons in Ha as [->|Ha]; apply elem_of_cons in Hb as [->|Hb].
    + rewrite tuple_lt_refl. discriminate.
    + intros Hnone. apply tuple_lt_none_sym in Hnone. by apply (Hx b Hb).
    + by apply Hx.
    + by apply Hcmp.
Qed.
End SortRaises.

Section ListingFailures.
Variable re : regex_engine.

(** The list operation raises HTTP 500 from a [TypeError] whenever two of
    the documents it has to sort have keys without an order between them;
    the store is reachable and accepts the filter. *)
Theorem list_notes_unorderable
    (tag q : option string) (pinned : option bool) (st : mongo) (a b : doc) :
  fault st = None -> filter_error re (build_filter tag q pinned) = None ->
  a ∈ note st -> b ∈ note st ->
  matches re (build_filter tag q pinned) a = true ->
  matches re (build_filter tag q pinned) b = true ->
  tuple_lt (sort_key a) (sort_key b) = None ->
  list_notes re tag q pinned (Some st)
    = (Raise (HTTPException 500 (Str TypeError)),
       Some (log (CFind "note" (build_filter tag q pinned)) st)).
Proof.
  intros Hf Hre Ha Hb Hma Hmb Hnone. rewrite list_notes_unfold. unfold find.
  rewrite Hf, Hre. simpl.
  destruct (py_sort sort_key _) as [sorted|] eqn:Hsort; [|reflexivity].
  exfalso. apply (py_sort_comparable sort_key _ _ Hsort a b);
    [by apply elem_of_List_filter | by apply elem_of_List_filter | exact Hnone].
Qed.

(** A datetime and the default 0 of a missing [created_at] have no order:
    two documents of the same pinned state, one of each kind, cannot be
    sorted. *)
Lemma dated_and_undated_unorderable (a b : doc) (t : Z) :
  pinned_doc a = pinned_doc b ->
  get a "created_at" = Some (VDate t) -> get b "created_at" = None ->
  tuple_lt (sort_key a) (sort_key b) = None.
Proof.
  intros Hp Ha Hb.
  change (sort_key a) with (negb (pinned_doc a), get_or a "created_at" (VInt 0)).
  change (sort_key b) with (negb (pinned_doc b), get_or b "created_at" (VInt 0)).
  unfold tuple_lt, get_or. rewrite Hp, Ha, Hb. simpl.
  by rewrite Bool.eqb_reflx.
Qed.

Lemma list_notes_fails_on
    (tag q : option string) (pinned : option bool) (st : mongo) (d : doc) (e : error) :
  d ∈ note st -> matches re (build_filter tag q pinned) d = true ->
  serialize_note d = inl e ->
  exists e' db', list_notes re tag q pinned (Some st)
                 = (Raise (HTTPException 500 (Str e')), db').
Proof.
  intros Hd Hm He. rewrite list_notes_unfold.
  destruct (find re "note" _ st) as [[m|docs] st'] eqn:Hfind; [eauto|].
  destruct (py_sort sort_key docs) as [sorted|] eqn:Hsort; [|eauto].
  destruct (serialize_all sorted) as [e'|ns] eqn:Hser; [eauto|].
  exfalso. unfold find in Hfind.
  destruct (fault st); [discriminate|]. destruct (filter_error re _); [discriminate|].
  injection Hfind as <- _. simpl in Hsort.
  assert (Hin : d ∈ sorted).
  { rewrite (py_sort_perm _ _ _ Hsort). by apply elem_of_List_filter. }
  apply serialize_all_Forall2 in Hser. apply list_elem_of_lookup_1 in Hin as [i Hi].
  destruct (Forall2_lookup_l _ _ _ _ _ Hser Hi) as (n & _ & Hn). congruence.
Qed.


End ListingFailures.

Lemma list_notes_unorderable_witness :
  list_notes substring_engine None None None (Some store_dates)
    = (Raise (HTTPException 500 (Str TypeError)),
       Some (log (CFind "note" (build_filter None None None)) store_dates)).
Proof.
  apply (list_notes_unorderable substring_engine None None None store_dates
           note_dated note_undated); try reflexivity.
  - by left.
  - right. by left.
Defined.


(** ** Writes: what they find, what they leave *)

Lemma first_with_id (o : objectid) (l : list doc) :
  (exists d, d ∈ l /\ _id d = o) ->
  exists l1 d l2, l = (l1 ++ d :: l2)%list /\ _id d = o /\ (forall x, x ∈ l1 -> _id x <> o).
Proof.
  induction l as [|y l IH]; intros (d & Hd & Hid).
  - by apply elem_of_nil in Hd.
  - destruct (objectid_eqb (_id y) o) eqn:Hy.
    + exists [], y, l. split; [reflexivity|]. split; [by apply objectid_eqb_eq|].
      intros x Hx. by apply elem_of_nil in Hx.
    + apply objectid_eqb_neq in Hy.
      destruct IH as (l1 & d' & l2 & -> & Hd' & Hl1).
      { exists d. split; [|exact Hid]. apply elem_of_cons in Hd as [->|Hd]; [congruence|exact Hd]. }
      exists (y :: l1), d', l2. split; [reflexivity|]. split; [exact Hd'|].
      intros x Hx. apply elem_of_cons in Hx as [->|Hx]; [exact Hy | by apply Hl1].
Qed.

Lemma remove_first_inv (o : objectid) (l l' : list doc) :
  remove_first o l = Some l' ->
  exists l1 d l2, l = (l1 ++ d :: l2)%list /\ _id d = o /\
    (forall x, x ∈ l1 -> _id x <> o) /\ l' = (l1 ++ l2)%list.
Proof.
  revert l'. induction l as [|y l IH]; simpl; intros l' H; [discriminate|].
  destruct (objectid_eqb (_id y) o) eqn:Hy.
  - injection H as <-. exists [], y, l. repeat split; [by apply objectid_eqb_eq|].
    intros x Hx. by apply elem_of_nil in Hx.
  - destruct (remove_first o l) as [r|]; [|discriminate]. injection H as <-.
    destruct (IH r eq_refl) as (l1 & d & l2 & -> & Hd & Hl1 & ->).
    exists (y :: l1), d, l2. repeat split; [exact Hd|].
    intros x Hx. apply elem_of_cons in Hx as [->|Hx];
      [by apply objectid_eqb_neq | by apply Hl1].
Qed.

Lemma update_first_inv (o : objectid) (upd : doc -> string + doc) (l l' : list doc) :
  update_first o upd l = Some (inr l') ->
  exists l1 d d' l2, l = (l1 ++ d :: l2)%list /\ _id d = o /\
    (forall x, x ∈ l1 -> _id x <> o) /\ upd d = inr d' /\ l' = (l1 ++ d' :: l2)%list.
Proof.
  revert l'. induction l as [|y l IH]; simpl; intros l' H; [discriminate|].
  destruct (objectid_eqb (_id y) o) eqn:Hy.
  - destruct (upd y) as [m|y'] eqn:Hu; [discriminate|]. injection H as <-.
    exists [], y, y', l. repeat split; [by apply objectid_eqb_eq| |exact Hu].
    intros x Hx. by apply elem_of_nil in Hx.
  - destruct (update_first o upd l) as [[m|r]|]; try discriminate. injection H as <-.
    destruct (IH r eq_refl) as (l1 & d & d' & l2 & -> & Hd & Hl1 & Hu & ->).
    exists (y :: l1), d, d', l2. repeat split; [exact Hd| |exact Hu].
    intros x Hx. apply elem_of_cons in Hx as [->|Hx];
      [by apply objectid_eqb_neq | by apply Hl1].
Qed.

Lemma apply_set_twice (set : gmap string value) (d : doc) :
  apply_set set (apply_set set d) = apply_set set d.
Proof.
  unfold apply_set. simpl. f_equal. apply map_eq. intros key.
  rewrite !lookup_union. destruct (set !! key), (fields d !! key); reflexivity.
Qed.

Lemma apply_update_twice (pe : path_engine) (set : gmap string value) (d d' : doc) :
  apply_update pe set d = inr d' -> apply_update pe set d' = inr d'.
Proof.
  unfold apply_update. destruct (plain_set set).
  - destruct (set !! "_id"); [discriminate|]. intros [= <-]. by rewrite apply_set_twice.
  - destruct (path_apply pe set (fields d)) as [m|f] eqn:Hp; [discriminate|].
    intros [= <-]. simpl. by rewrite (path_apply_twice pe set _ _ Hp).
Qed.

(** The same [update_one] sent a second time has the outcome of the first
    and leaves the documents as the first left them. *)
Lemma update_one_twice (o : objectid) (set : gmap string value) (st : mongo) :
  fst (update_one o set (snd (update_one o set st))) = fst (update_one o set st) /\
  note (snd (update_one o set (snd (update_one o set st)))) = note (snd (update_one o set st)).
Proof.
  destruct (update_one o set st) as [r st1] eqn:H1. simpl.
  unfold update_one in H1. destruct (fault st) as [m|] eqn:Hf.
  { injection H1 as <- <-. unfold update_one. simpl. by rewrite Hf. }
  destruct (negb (encodable set)) eqn:He.
  { injection H1 as <- <-. unfold update_one. simpl. by rewrite Hf, He. }
  destruct (set_error (paths st) set) as [m|] eqn:Hs.
  { injection H1 as <- <-. unfold update_one. simpl. by rewrite Hf, He, Hs. }
  destruct (update_first o (apply_update (paths st) set) (note st)) as [[m|l]|] eqn:Hu;
    injection H1 as <- <-.
  - unfold update_one. simpl. by rewrite Hf, He, Hs, Hu.
  - apply update_first_inv in Hu as (l1 & d & d' & l2 & Hl & Hd & Hl1 & Hupd & ->).
    unfold update_one. simpl. rewrite Hf, He, Hs.
    rewrite (update_first_found o _ l1 l2 d' d');
      [split; reflexivity | | exact Hl1 | by apply apply_update_twice with d].
    by rewrite (apply_update_id _ _ _ _ Hupd).
  - unfold update_one. simpl. by rewrite Hf, He, Hs, Hu.
Qed.

Lemma delete_removes_the_record_at
    (note_id : string) (o : objectid) (st : mongo) (l1 l2 : list doc) (d : doc) :
  fault st = None -> ObjectId note_id = inr o ->
  note st = (l1 ++ d :: l2)%list -> _id d = o -> (forall x, x ∈ l1 -> _id x <> o) ->
  delete_note note_id (Some st)
    = (Return {[ "ok" := VBool true ]},
       Some (with_note (l1 ++ l2) (log (CDeleteOne "note" o) st))).
Proof.
  intros Hf Hid Hst Hd Hl1. rewrite delete_note_unfold, Hid. unfold delete_one.
  rewrite Hf, Hst, (remove_first_found o l1 l2 d Hd Hl1). reflexivity.
Qed.

(** A write that raises has changed no stored record, and the only
    statuses it raises are 404 and 500. *)
Theorem failed_write_changes_nothing
    (note_id : string) (payload : gmap string value) (db : db_handle) :
  (forall h db', delete_note note_id db = (Raise h, db') ->
     notes_of db' = notes_of db /\ (status_code h = 404 \/ status_code h = 500)) /\
  (forall h db', update_note note_id payload db = (Raise h, db') ->
     notes_of db' = notes_of db /\ (status_code h = 404 \/ status_code h = 500)).
Proof.
  split; intros h db'.
  - rewrite delete_note_unfold. destruct db as [st|]; [|intros [= <- <-]; auto].
    destruct (ObjectId note_id) as [e|o]; [intros [= <- <-]; auto|].
    unfold delete_one. destruct (fault st); [intros [= <- <-]; auto|].
    destruct (remove_first o (note st)); simpl; [discriminate|].
    intros [= <- <-]. auto.
  - rewrite update_note_unfold. destruct db as [st|]; [|intros [= <- <-]; auto].
    destruct (ObjectId note_id) as [e|o]; [intros [= <- <-]; auto|].
    unfold update_one. destruct (fault st); [intros [= <- <-]; auto|].
    destruct (negb (encodable (set_of payload))); [intros [= <- <-]; auto|].
    destruct (set_error (paths st) (set_of payload)); [intros [= <- <-]; auto|].
    destruct (update_first o _ (note st)) as [[m|l]|]; simpl;
      [intros [= <- <-]; auto | discriminate | intros [= <- <-]; auto].
Qed.

(** On a reachable store and with a well-formed identifier, the delete,
    and the update with a payload that the driver can encode and whose
    keys are plain field names, succeed exactly when some stored record
    has that identifier. *)
Theorem write_succeeds_iff_found
    (note_id : string) (o : objectid) (payload : gmap string value) (st : mongo) :
  fault st = None -> ObjectId note_id = inr o -> accepted (set_of payload) = true ->
  ((exists db', delete_note note_id (Some st) = (Return {[ "ok" := VBool true ]}, db'))
     <-> exists d, d ∈ note st /\ _id d = o) /\
  ((exists db', update_note note_id payload (Some st) = (Return {[ "ok" := VBool true ]}, db'))
     <-> exists d, d ∈ note st /\ _id d = o).
Proof.
  intros Hf Hid Hacc. split; split.
  - intros [db' H]. rewrite delete_note_unfold, Hid in H. unfold delete_one in H.
    rewrite Hf in H. destruct (remove_first o (note st)) as [l|] eqn:Hr; [|discriminate].
    apply remove_first_inv in Hr as (l1 & d & l2 & Hl & Hd & _).
    exists d. split; [|exact Hd]. rewrite Hl. apply elem_of_app. right. by left.
  - intros Hex. apply first_with_id in Hex as (l1 & d & l2 & Hl & Hd & Hl1).
    rewrite delete_note_unfold, Hid. unfold delete_one.
    rewrite Hf, Hl, (remove_first_found o l1 l2 d Hd Hl1). simpl. eauto.
  - intros [db' H].
    rewrite update_note_unfold, Hid, (update_one_accepted _ _ _ Hf Hacc) in H.
    destruct (update_first o _ (note st)) as [[m|l]|] eqn:Hu; try discriminate.
    apply update_first_inv in Hu as (l1 & d & d' & l2 & Hl & Hd & _).
    exists d. split; [|exact Hd]. rewrite Hl. apply elem_of_app. right. by left.
  - intros Hex. apply first_with_id in Hex as (l1 & d & l2 & Hl & Hd & Hl1).
    rewrite (update_note_found note_id o payload st l1 l2 d Hf Hid Hacc Hl Hd Hl1). eauto.
Qed.

Lemma write_succeeds_iff_found_witness :
  ((exists db', delete_note id_B (Some store_ABC) = (Return {[ "ok" := VBool true ]}, db'))
     <-> exists d, d ∈ note store_ABC /\ _id d = Oid id_B) /\
  ((exists db', update_note id_B ∅ (Some store_ABC) = (Return {[ "ok" := VBool true ]}, db'))
     <-> exists d, d ∈ note store_ABC /\ _id d = Oid id_B).
Proof.
  apply (write_succeeds_iff_found id_B (Oid id_B) ∅ store_ABC); reflexivity.
Defined.

(** Sending the same update a second time changes nothing more: the
    second call has the outcome of the first and leaves the stored records
    as the first left them. *)
Theorem update_note_idempotent
    (note_id : string) (payload : gmap string value) (db : db_handle) :
  fst (update_note note_id payload (snd (update_note note_id payload db)))
    = fst (update_note note_id payload db) /\
  notes_of (snd (update_note note_id payload (snd (update_note note_id payload db))))
    = notes_of (snd (update_note note_id payload db)).
Proof.
  rewrite (update_note_unfold note_id payload db).
  destruct db as [st|]; [|split; reflexivity].
  destruct (ObjectId note_id) as [e|o] eqn:Hid.
  { simpl. rewrite update_note_unfold, Hid. split; reflexivity. }
  destruct (update_one_twice o (set_of payload) st) as [H1 H2].
  destruct (update_one o (set_of payload) st) as [r st1]. simpl in H1, H2.
  destruct r as [e|r]; [|destruct (matched_count r =? 0) eqn:Hm]; simpl;
    rewrite update_note_unfold, Hid;
    destruct (update_one o (set_of payload) st1) as [r2 st2];
    simpl in H1, H2; subst r2; rewrite ?Hm; simpl; by rewrite H2.
Qed.

(** Two updates of an existing note, one after the other, with payloads
    that the driver can encode and whose keys are plain field names: every
    field keeps the value of the later payload that names it, else of the
    earlier one, else its old value; [updated_at] is what the later
    payload gives, or [null], even when the earlier payload gave a
    value. *)
Theorem later_update_wins
    (note_id : string) (o : objectid) (p1 p2 : gmap string value)
    (st : mongo) (l1 l2 : list doc) (d : doc) :
  fault st = None -> ObjectId note_id = inr o ->
  accepted (set_of p1) = true -> accepted (set_of p2) = true ->
  note st = (l1 ++ d :: l2)%list -> _id d = o -> (forall x, x ∈ l1 -> _id x <> o) ->
  exists d2 st1 st2,
    update_note note_id p1 (Some st) = (Return {[ "ok" := VBool true ]}, Some st1) /\
    update_note note_id p2 (Some st1) = (Return {[ "ok" := VBool true ]}, Some st2) /\
    note st2 = (l1 ++ d2 :: l2)%list /\ _id d2 = _id d /\
    get d2 "updated_at" = Some (default VNull (p2 !! "updated_at")) /\
    forall key, key <> "_id" -> key <> "updated_at" ->
      get d2 key = match p2 !! key with
                   | Some v => Some v
                   | None => match p1 !! key with Some v => Some v | None => get d key end
                   end.
Proof.
  intros Hf Hid Hacc1 Hacc2 Hst Hd Hl1.
  eexists _, _, _. split; [by apply (update_note_found _ o _ st l1 l2 d)|].
  split; [by apply (update_note_found _ o _ _ l1 l2 (apply_set (set_of p1) d))|].
  split; [reflexivity|]. split; [reflexivity|]. split.
  - by rewrite apply_set_get, set_of_updated_at.
  - intros key H1 H2. rewrite !apply_set_get. unfold set_of. simpl.
    rewrite !lookup_insert_ne by congruence. rewrite !lookup_delete_ne by congruence.
    reflexivity.
Qed.

Lemma later_update_wins_witness :
  exists d2 st1 st2,
    update_note id_B {[ "updated_at" := VInt 9 ]} (Some store_ABC)
      = (Return {[ "ok" := VBool true ]}, Some st1) /\
    update_note id_B {[ "title" := VStr "new" ]} (Some st1)
      = (Return {[ "ok" := VBool true ]}, Some st2) /\
    note st2 = ([note_A] ++ d2 :: [note_C])%list /\ _id d2 = _id note_B /\
    get d2 "updated_at"
      = Some (default VNull (({[ "title" := VStr "new" ]} : gmap string value) !! "updated_at")) /\
    forall key, key <> "_id" -> key <> "updated_at" ->
      get d2 key = match ({[ "title" := VStr "new" ]} : gmap string value) !! key with
                   | Some v => Some v
                   | None => match ({[ "updated_at" := VInt 9 ]} : gmap string value) !! key with
                             | Some v => Some v
                             | None => get note_B key
                             end
                   end.
Proof.
  apply (later_update_wins id_B (Oid id_B) {[ "updated_at" := VInt 9 ]}
           {[ "title" := VStr "new" ]} store_ABC [note_A] [note_C] note_B); try reflexivity.
  intros x Hx. apply list_elem_of_singleton in Hx. subst x. discriminate.
Defined.

Lemma oid_str_inj (a b : objectid) : oid_str a = oid_str b -> a = b.
Proof. destruct a, b. simpl. congruence. Qed.

Lemma map_is_fmap {A B : Type} (f : A -> B) (l : list A) : List.map f l = f <$> l.
Proof. induction l as [|x l IH]; simpl; [reflexivity | by rewrite IH]. Qed.

Lemma ids_without (o : objectid) (l1 l2 : list doc) (d : doc) :
  _id d = o -> NoDup (_id <$> (l1 ++ d :: l2)%list) ->
  forall x, x ∈ (l1 ++ l2)%list -> _id x <> o.
Proof.
  intros Hd Hnd x Hx Hxo. rewrite fmap_app, fmap_cons in Hnd.
  apply NoDup_app in Hnd as (_ & Hdisj & Hnd). apply NoDup_cons in Hnd as [Hd2 _].
  apply elem_of_app in Hx as [Hx|Hx].
  - apply (Hdisj (_id x)); [by apply list_elem_of_fmap_2|]. rewrite Hxo, <- Hd. by left.
  - apply Hd2. rewrite Hd, <- Hxo. by apply list_elem_of_fmap_2.
Qed.

Lemma sample_ids_distinct : NoDup (ids store_ABC).
Proof.
  unfold ids. simpl. repeat constructor; rewrite ?elem_of_cons, ?elem_of_nil;
    intros H; repeat destruct H as [H|H]; try exact H; discriminate H.
Qed.

Section WritesThenReads.
Variable re : regex_engine.

Lemma listed_note_origin (tag q : option string) (pinned : option bool)
    (st : mongo) (ns : list Schema.NoteOut) (db' : db_handle) (n : Schema.NoteOut) :
  list_notes re tag q pinned (Some st) = (Return ns, db') -> n ∈ ns ->
  exists d, d ∈ note st /\ matches re (build_filter tag q pinned) d = true /\
            serialize_note d = inr n.
Proof.
  intros H Hn. apply list_notes_returns in H as (_ & _ & _ & ds & Hsort & Hser).
  apply serialize_all_Forall2 in Hser. apply list_elem_of_lookup_1 in Hn as [i Hi].
  destruct (Forall2_lookup_r _ _ _ _ _ Hser Hi) as (d & Hd & Hdn).
  exists d. apply list_elem_of_lookup_2 in Hd.
  rewrite (py_sort_perm _ _ _ Hsort) in Hd. apply elem_of_List_filter in Hd as [Hd Hm].
  auto.
Qed.

(** Once a note is deleted it is gone: in a store whose identifiers are
    unique, after the delete no record has the identifier, all other
    records are still there, a second delete answers 404, an update of it
    never succeeds (it answers 404 when the driver can encode the payload
    and its keys are plain field names, and 404 or 500 otherwise), and no
    listing returns a note with that identifier. *)
Theorem deleted_note_is_gone (note_id : string) (o : objectid) (st : mongo) :
  fault st = None -> ObjectId note_id = inr o -> NoDup (ids st) ->
  (exists d, d ∈ note st /\ _id d = o) ->
  exists st1,
    delete_note note_id (Some st) = (Return {[ "ok" := VBool true ]}, Some st1) /\
    (forall d, d ∈ note st1 <-> d ∈ note st /\ _id d <> o) /\
    (exists db2, delete_note note_id (Some st1)
                 = (Raise (HTTPException 404 (Text "Note not found")), db2)) /\
    (forall payload, exists h db2,
       update_note note_id payload (Some st1) = (Raise h, db2) /\
       (status_code h = 404 \/ status_code h = 500) /\
       (accepted (set_of payload) = true ->
        h = HTTPException 404 (Text "Note not found"))) /\
    (forall tag q pinned ns db2 n,
       list_notes re tag q pinned (Some st1) = (Return ns, db2) -> n ∈ ns ->
       Schema.id n <> oid_str o).
Proof.
  intros Hf Hid Hnd Hex. apply first_with_id in Hex as (l1 & d & l2 & Hl & Hd & Hl1).
  unfold ids in Hnd. rewrite Hl in Hnd.
  pose proof (ids_without o l1 l2 d Hd Hnd) as Hgone.
  eexists. split; [by apply (delete_removes_the_record_at note_id o st l1 l2 d)|].
  simpl. split; [|split; [|split]].
  - intros x. rewrite Hl, !elem_of_app, elem_of_cons. split.
    + intros Hx. split; [tauto|]. apply Hgone. by apply elem_of_app.
    + intros [[Hx|[->|Hx]] Hne]; tauto.
  - rewrite delete_note_unfold, Hid. unfold delete_one. simpl.
    rewrite Hf, (remove_first_absent o _ Hgone). simpl. eauto.
  - intros payload. rewrite update_note_unfold, Hid. unfold update_one. simpl.
    rewrite Hf, (update_first_absent o _ _ Hgone). unfold accepted, set_error.
    destruct (encodable (set_of payload)); simpl;
      [|eexists _, _; split; [reflexivity|]; split; [auto | discriminate]].
    destruct (plain_set (set_of payload)); simpl;
      [eexists _, _; split; [reflexivity|]; split; auto|].
    destruct (path_check _ _); simpl;
      eexists _, _; (split; [reflexivity|]); split; auto; discriminate.
  - intros tag q pinned ns db2 n Hlist Hn.
    destruct (listed_note_origin _ _ _ _ _ _ _ Hlist Hn) as (x & Hx & _ & Hser).
    apply serialize_note_defaults in Hser as [Hidn _]. rewrite Hidn.
    intros Heq. apply oid_str_inj in Heq. by apply (Hgone x Hx).
Qed.

(** An update that gives [title] a value other than a string (in a
    payload that the driver can encode and whose keys are plain field
    names) is accepted, and from then on the unfiltered listing raises
    HTTP 500. *)
Theorem unvalidated_update_breaks_listing
    (note_id : string) (o : objectid) (payload : gmap string value) (v : value)
    (st : mongo) (l1 l2 : list doc) (d : doc) :
  fault st = None -> ObjectId note_id = inr o -> accepted (set_of payload) = true ->
  note st = (l1 ++ d :: l2)%list -> _id d = o -> (forall x, x ∈ l1 -> _id x <> o) ->
  payload !! "title" = Some v -> Schema.as_str v = None ->
  exists st1,
    update_note note_id payload (Some st) = (Return {[ "ok" := VBool true ]}, Some st1) /\
    exists e db', list_notes re None None None (Some st1)
                  = (Raise (HTTPException 500 (Str e)), db').
Proof.
  intros Hf Hid Hacc Hst Hd Hl1 Hv Hbad.
  eexists. split; [by apply (update_note_found _ o _ st l1 l2 d)|].
  apply (list_notes_fails_on re None None None _
           (apply_set (set_of payload) d) ValidationError).
  - simpl. apply elem_of_app. right. by left.
  - reflexivity.
  - unfold serialize_note, get_or. rewrite (apply_set_get _ d "title").
    unfold set_of. simpl. rewrite lookup_insert_ne, lookup_delete_ne, Hv by discriminate.
    simpl. unfold Schema.NoteOut_init. by rewrite Hbad.
Qed.

Lemma list_notes_keeps_notes (tag q : option string) (pinned : option bool) (st : mongo) :
  notes_of (snd (list_notes re tag q pinned (Some st))) = Some (note st).
Proof.
  rewrite list_notes_unfold. unfold find.
  destruct (fault st); [reflexivity|].
  destruct (filter_error re _); [reflexivity|].
  destruct (py_sort sort_key _) as [sorted|]; [|reflexivity].
  destruct (serialize_all sorted); reflexivity.
Qed.

(** Every handler keeps the stored identifiers unique. *)
Theorem handlers_keep_ids_unique (st : mongo) :
  NoDup (ids st) ->
  (forall note_id st', snd (delete_note note_id (Some st)) = Some st' -> NoDup (ids st')) /\
  (forall note_id payload st',
     snd (update_note note_id payload (Some st)) = Some st' -> NoDup (ids st')) /\
  (forall tag q pinned st',
     snd (list_notes re tag q pinned (Some st)) = Some st' -> NoDup (ids st')) /\
  (forall st', snd (test_database (Some st)) = Some st' -> NoDup (ids st')).
Proof.
  intros Hnd. unfold ids in *. repeat split.
  - intros note_id st'. rewrite delete_note_unfold.
    destruct (ObjectId note_id) as [e|o]; [by intros [= <-]|].
    unfold delete_one. destruct (fault st); [by intros [= <-]|].
    destruct (remove_first o (note st)) as [l|] eqn:Hr; simpl; [|by intros [= <-]].
    intros [= <-]. simpl.
    apply remove_first_inv in Hr as (l1 & d & l2 & Hl & _ & _ & ->).
    rewrite Hl, fmap_app, fmap_cons in Hnd. rewrite fmap_app.
    apply NoDup_app in Hnd as (H1 & H2 & H3). apply NoDup_cons in H3 as [_ H3].
    apply NoDup_app. split; [exact H1|]. split; [|exact H3].
    intros x Hx Hx2. apply (H2 x Hx). by right.
  - intros note_id payload st'. rewrite update_note_unfold.
    destruct (ObjectId note_id) as [e|o]; [by intros [= <-]|].
    unfold update_one. destruct (fault st); [by intros [= <-]|].
    destruct (negb (encodable (set_of payload))); [by intros [= <-]|].
    destruct (set_error (paths st) (set_of payload)); [by intros [= <-]|].
    destruct (update_first o _ (note st)) as [[m|l]|] eqn:Hu; simpl;
      try (by intros [= <-]); try (destruct (_ =? _); by intros [= <-]).
    intros [= <-]. simpl.
    by rewrite <- !map_is_fmap, (update_first_ids _ _ _ _ (apply_update_id _ _) Hu).
  - intros tag q pinned st' H.
    pose proof (list_notes_keeps_notes tag q pinned st) as Hk.
    rewrite H in Hk. simpl in Hk. injection Hk as ->. exact Hnd.
  - intros st'. unfold test_database, list_collection_names.
    destruct (fault st); by intros [= <-].
Qed.
End WritesThenReads.

Lemma deleted_note_is_gone_witness :
  exists st1,
    delete_note id_B (Some store_ABC) = (Return {[ "ok" := VBool true ]}, Some st1) /\
    (forall d, d ∈ note st1 <-> d ∈ note store_ABC /\ _id d <> Oid id_B) /\
    (exists db2, delete_note id_B (Some st1)
                 = (Raise (HTTPException 404 (Text "Note not found")), db2)) /\
    (forall payload, exists h db2,
       update_note id_B payload (Some st1) = (Raise h, db2) /\
       (status_code h = 404 \/ status_code h = 500) /\
       (accepted (set_of payload) = true ->
        h = HTTPException 404 (Text "Note not found"))) /\
    (forall tag q pinned ns db2 n,
       list_notes substring_engine tag q pinned (Some st1) = (Return ns, db2) -> n ∈ ns ->
       Schema.id n <> oid_str (Oid id_B)).
Proof.
  apply (deleted_note_is_gone substring_engine id_B (Oid id_B) store_ABC); try reflexivity.
  - apply sample_ids_distinct.
  - exists note_B. split; [right; by left | reflexivity].
Defined.

Lemma unvalidated_update_breaks_listing_witness :
  exists st1,
    update_note id_A {[ "title" := VNull ]} (Some store_ABC)
      = (Return {[ "ok" := VBool true ]}, Some st1) /\
    exists e db', list_notes substring_engine None None None (Some st1)
                  = (Raise (HTTPException 500 (Str e)), db').
Proof.
  apply (unvalidated_update_breaks_listing substring_engine id_A (Oid id_A)
           {[ "title" := VNull ]} VNull store_ABC [] [note_B; note_C] note_A);
    try reflexivity.
  intros x Hx. by apply elem_of_nil in Hx.
Defined.

Lemma handlers_keep_ids_unique_witness :
  (forall note_id st', snd (delete_note note_id (Some store_ABC)) = Some st' -> NoDup (ids st')) /\
  (forall note_id payload st',
     snd (update_note note_id payload (Some store_ABC)) = Some st' -> NoDup (ids st')) /\
  (forall tag q pinned st',
     snd (list_notes substring_engine tag q pinned (Some store_ABC)) = Some st' ->
     NoDup (ids st')) /\
  (forall st', snd (test_database (Some store_ABC)) = Some st' -> NoDup (ids st')).
Proof.
  apply (handlers_keep_ids_unique substring_engine store_ABC).
  apply sample_ids_distinct.
Defined.

(** ** Listings *)

Lemma filter_all {A : Type} (f : A -> bool) (l : list A) :
  (forall x, f x = true) -> List.filter f l = l.
Proof. intros H. induction l as [|x l IH]; simpl; [reflexivity|]. by rewrite H, IH. Qed.


Lemma serialized_ids (ds : list doc) (ns : list Schema.NoteOut) :
  serialize_all ds = inr ns -> Schema.id <$> ns = (fun d => oid_str (_id d)) <$> ds.
Proof.
  intros H. apply serialize_all_Forall2 in H.
  induction H as [|d n ds ns Hd _ IH]; [reflexivity|].
  apply serialize_note_defaults in Hd as [Hid _]. rewrite !fmap_cons. by rewrite Hid, IH.
Qed.


Section SortOfFilter.
Context {A : Type} (key : A -> bool * value) (f : A -> bool).

End SortOfFilter.

Lemma ci_occurs_empty (s : string) : ci_occurs "" s = true.
Proof. unfold ci_occurs. simpl. by destruct (lower s). Qed.

Section ListingProperties.
Variable re : regex_engine.

Lemma build_filter_nothing (tag q : option string) (pinned : option bool) :
  truthy_str tag = false -> pinned = None -> truthy_str q = false ->
  build_filter tag q pinned = [].
Proof.
  intros Ht -> Hq. unfold build_filter. unfold truthy_str in *.
  destruct tag as [t|]; [rewrite Ht|]; (destruct q as [p|]; [rewrite Hq|]); reflexivity.
Qed.

(** Without a filter (each of [tag] and [q] absent or empty, [pinned]
    absent) a listing that returns holds every stored note exactly once:
    the identifiers it prints are a rearrangement of the stored ones. *)
Theorem unfiltered_listing_is_complete
    (tag q : option string) (pinned : option bool)
    (st : mongo) (ns : list Schema.NoteOut) (db' : db_handle) :
  truthy_str tag = false -> pinned = None -> truthy_str q = false ->
  list_notes re tag q pinned (Some st) = (Return ns, db') ->
  Schema.id <$> ns ≡ₚ (fun d => oid_str (_id d)) <$> note st /\
  length ns = length (note st).
Proof.
  intros Ht Hp Hq H. apply list_notes_returns in H as (_ & _ & _ & ds & Hsort & Hser).
  rewrite (build_filter_nothing tag q pinned Ht Hp Hq) in Hsort.
  rewrite filter_all in Hsort by reflexivity.
  pose proof (py_sort_perm _ _ _ Hsort) as Hperm.
  assert (Hids : Schema.id <$> ns ≡ₚ (fun d => oid_str (_id d)) <$> note st).
  { rewrite (serialized_ids ds ns Hser). by apply fmap_Permutation. }
  split; [exact Hids|].
  apply Permutation_length in Hids. by rewrite !length_fmap in Hids.
Qed.

(** Every note of a listing satisfies the filters that were given: it
    carries the tag (when the tag is not empty), its [is_pinned] is the
    boolean asked for, and a text the store reads as plain text occurs,
    letter case ignored, in its title or its content. *)
Theorem listed_notes_satisfy_filters
    (tag q : option string) (pinned : option bool)
    (st : mongo) (ns : list Schema.NoteOut) (db' : db_handle) (n : Schema.NoteOut) :
  list_notes re tag q pinned (Some st) = (Return ns, db') -> n ∈ ns ->
  (forall t, tag = Some t -> t <> "" -> t ∈ Schema.tags n) /\
  (forall p, pinned = Some p -> Schema.is_pinned n = p) /\
  (forall p, q = Some p -> plain_pattern re p ->
     ci_occurs p (Schema.title n) = true \/ ci_occurs p (Schema.content n) = true).
Proof.
  intros H Hn. destruct (listed_note_origin re _ _ _ _ _ _ _ H Hn) as (d & _ & Hm & Hser).
  pose proof (matches_selected re _ _ _ _ _ Hser Hm) as (H1 & H2 & H3).
  apply serialize_note_defaults in Hser as (_ & _ & _ & _ & _ & Ht & Hc & Hg & Hb).
  repeat split.
  - intros t Htag Hne. destruct (H1 t Htag Hne) as (l & Hl & Hin). by rewrite (Hg l Hl).
  - intros p Hp. by apply Hb, H2.
  - intros p Hq Hplain. destruct (String.eqb_spec p "") as [->|Hne];
      [left; apply ci_occurs_empty|].
    destruct (H3 p Hq Hne) as [(s & Hs & Hhit)|(s & Hs & Hhit)]; [left | right].
    + rewrite (Ht s Hs), <- Hplain. exact Hhit.
    + rewrite (Hc s Hs), <- Hplain. exact Hhit.
Qed.


(** A listed identifier leads back to its note: when the stored
    identifiers are ones [ObjectId] parses back, the [id] of every listed
    note parses to the identifier of the document it was made from, and a
    delete with that [id], sent right after the listing, succeeds. *)
Theorem listed_id_leads_to_its_note
    (tag q : option string) (pinned : option bool)
    (st : mongo) (ns : list Schema.NoteOut) (db' : db_handle) (n : Schema.NoteOut) :
  printable_ids st ->
  list_notes re tag q pinned (Some st) = (Return ns, db') -> n ∈ ns ->
  exists d, d ∈ note st /\ serialize_note d = inr n /\
    ObjectId (Schema.id n) = inr (_id d) /\
    exists db2, delete_note (Schema.id n) db' = (Return {[ "ok" := VBool true ]}, db2).
Proof.
  intros Hids H Hn.
  destruct (listed_note_origin re _ _ _ _ _ _ _ H Hn) as (d & Hd & _ & Hser).
  apply list_notes_returns in H as (Hf & _ & -> & _).
  exists d. split; [exact Hd|]. split; [exact Hser|].
  apply serialize_note_defaults in Hser as [Hid _].
  unfold printable_ids in Hids. rewrite Forall_forall in Hids.
  assert (Hparse : ObjectId (Schema.id n) = inr (_id d)) by (rewrite Hid; by apply Hids).
  split; [exact Hparse|].
  destruct (first_with_id (_id d) (note st)) as (l1 & d0 & l2 & Hl & Hd0 & Hl1); [eauto|].
  eexists. by apply (delete_removes_the_record_at _ (_id d) _ l1 l2 d0).
Qed.
End ListingProperties.

Lemma sample_ids_printable : printable_ids store_ABC.
Proof. unfold printable_ids. simpl. repeat constructor. Qed.

Lemma unfiltered_listing_is_complete_witness :
  Schema.id <$> [out_C; out_A; out_B] ≡ₚ (fun d => oid_str (_id d)) <$> note store_ABC /\
  length [out_C; out_A; out_B] = length (note store_ABC).
Proof.
  apply (unfiltered_listing_is_complete substring_engine (Some "") None None store_ABC
           [out_C; out_A; out_B]
           (Some (log (CFind "note" (build_filter (Some "") None None)) store_ABC)));
    reflexivity.
Defined.

Lemma listed_notes_satisfy_filters_witness :
  (forall t, None = Some t -> t <> "" -> t ∈ Schema.tags out_A) /\
  (forall p, Some true = Some p -> Schema.is_pinned out_A = p) /\
  (forall p, Some "a" = Some p -> plain_pattern substring_engine p ->
     ci_occurs p (Schema.title out_A) = true \/ ci_occurs p (Schema.content out_A) = true).
Proof.
  apply (listed_notes_satisfy_filters substring_engine None (Some "a") (Some true) store_ABC
           [out_A]
           (Some (log (CFind "note" (build_filter None (Some "a") (Some true))) store_ABC))
           out_A); [reflexivity | by left].
Defined.


Lemma listed_id_leads_to_its_note_witness :
  exists d, d ∈ note store_ABC /\ serialize_note d = inr out_A /\
    ObjectId (Schema.id out_A) = inr (_id d) /\
    exists db2,
      delete_note (Schema.id out_A)
        (Some (log (CFind "note" (build_filter None None None)) store_ABC))
      = (Return {[ "ok" := VBool true ]}, db2).
Proof.
  apply (listed_id_leads_to_its_note substring_engine None None None store_ABC
           [out_C; out_A; out_B] _ out_A);
    [apply sample_ids_printable | reflexivity | right; by left].
Defined.

(** ** Fields that no listing reads *)

Section Related.
Context {A : Type} (key : A -> bool * value) (R : A -> A -> Prop).
Hypothesis R_key : forall a b, R a b -> key b = key a.

Lemma insert_by_related (x x' : A) (l l' : list A) :
  R x x' -> Forall2 R l l' ->
  option_Forall2 (Forall2 R) (insert_by key x l) (insert_by key x' l').
Proof.
  intros Hx Hl. induction Hl as [|y y' l l' Hy Hl IH]; simpl.
  - repeat constructor. exact Hx.
  - rewrite (R_key _ _ Hx), (R_key _ _ Hy).
    destruct (tuple_lt (key y) (key x)) as [[|]|]; [|repeat constructor; assumption|constructor].
    destruct IH as [r r' Hr|]; repeat constructor; assumption.
Qed.

Lemma py_sort_related (l l' : list A) :
  Forall2 R l l' -> option_Forall2 (Forall2 R) (py_sort key l) (py_sort key l').
Proof.
  induction 1 as [|x x' l l' Hx Hl IH]; simpl; [repeat constructor|].
  destruct IH as [r r' Hr|]; [by apply insert_by_related | constructor].
Qed.

Lemma filter_related (f : A -> bool) (l l' : list A) :
  (forall a b, R a b -> f b = f a) -> Forall2 R l l' ->
  Forall2 R (List.filter f l) (List.filter f l').
Proof.
  intros Hf. induction 1 as [|x x' l l' Hx Hl IH]; simpl; [constructor|].
  rewrite (Hf _ _ Hx). destruct (f x); [by constructor | exact IH].
Qed.
End Related.

Lemma same_view_refl (d : doc) : same_view d d.
Proof. by split. Qed.

Lemma same_view_serialize (d d' : doc) :
  same_view d d' -> serialize_note d' = serialize_note d.
Proof.
  intros [Hid H]. unfold serialize_note, get_or. rewrite Hid.
  rewrite !H by (unfold listing_keys, schema_fields; simpl; rewrite !elem_of_cons; tauto).
  reflexivity.
Qed.

Lemma same_view_sort_key (d d' : doc) : same_view d d' -> sort_key d' = sort_key d.
Proof.
  intros [_ H]. unfold sort_key, get_or.
  rewrite !H by (unfold listing_keys, schema_fields; simpl; rewrite !elem_of_cons; tauto).
  reflexivity.
Qed.

Lemma serialize_all_related (l l' : list doc) :
  Forall2 same_view l l' -> serialize_all l' = serialize_all l.
Proof.
  induction 1 as [|d d' l l' Hd _ IH]; simpl; [reflexivity|].
  by rewrite (same_view_serialize d d' Hd), IH.
Qed.

Section UnreadFields.
Variable re : regex_engine.

Lemma same_view_matches (tag q : option string) (pinned : option bool) (d d' : doc) :
  same_view d d' ->
  matches re (build_filter tag q pinned) d' = matches re (build_filter tag q pinned) d.
Proof.
  intros [_ H]. unfold build_filter, matches, set_item, truthy.
  destruct tag as [t|]; [destruct (String.eqb t "")|];
  (destruct pinned as [b|]); (destruct q as [p|]; [destruct (String.eqb p "")|]);
  simpl; unfold eval_clause, eval_alt; simpl;
  rewrite ?H by (unfold listing_keys, schema_fields; simpl; rewrite !elem_of_cons; tauto);
  reflexivity.
Qed.

Lemma update_note_view (note_id : string) (payload : gmap string value) (st : mongo) :
  plain_set (set_of payload) = true ->
  (forall key, key ∈ listing_keys -> payload !! key = None) ->
  exists st1, snd (update_note note_id payload (Some st)) = Some st1 /\
    fault st1 = fault st /\ Forall2 same_view (note st) (note st1).
Proof.
  intros Hplain Hp.
  assert (Hrefl : forall l, Forall2 same_view l l).
  { intros l. induction l; constructor; [apply same_view_refl | assumption]. }
  rewrite update_note_unfold.
  destruct (ObjectId note_id) as [e|o]; [eauto|].
  unfold update_one. destruct (fault st) eqn:Hf.
  { eexists. split; [reflexivity|]. simpl. split; [exact Hf | apply Hrefl]. }
  destruct (negb (encodable (set_of payload)));
    [eexists; split; [reflexivity|]; simpl; split; [exact Hf | apply Hrefl]|].
  unfold set_error. rewrite Hplain.
  destruct (update_first o _ (note st)) as [[m|l]|] eqn:Hu;
    try (eexists; split; [reflexivity|]; simpl; split; [exact Hf | apply Hrefl]; fail).
  apply update_first_inv in Hu as (l1 & d & d' & l2 & Hl & Hd & _ & Hupd & ->).
  rewrite (apply_update_plain _ _ _ Hplain (set_of_no_id payload)) in Hupd.
  injection Hupd as <-.
  eexists. split; [reflexivity|]. simpl. split; [exact Hf|]. rewrite Hl.
  apply Forall2_app; [apply Hrefl|]. constructor; [|apply Hrefl].
  split; [reflexivity|]. intros key Hk. rewrite apply_set_get. unfold set_of. simpl.
  assert (Hne : key <> "updated_at" /\ key <> "_id").
  { split; intros ->; apply list_elem_of_In in Hk; simpl in Hk; intuition discriminate. }
  destruct Hne as [H1 H2].
  rewrite lookup_insert_ne, lookup_delete_ne, (Hp key Hk) by congruence. reflexivity.
Qed.

(** [updated_at] and unknown fields are write-only: an update whose
    payload has plain field names for keys and names none of the fields a
    listing reads (title, content, tags, color, is_pinned, mood,
    created_at) changes the outcome of no listing, whatever else it
    stores. *)
Theorem unread_fields_do_not_show
    (note_id : string) (payload : gmap string value) (st : mongo)
    (tag q : option string) (pinned : option bool) :
  plain_set (set_of payload) = true ->
  (forall key, key ∈ listing_keys -> payload !! key = None) ->
  fst (list_notes re tag q pinned (snd (update_note note_id payload (Some st))))
    = fst (list_notes re tag q pinned (Some st)).
Proof.
  intros Hplain Hp.
  destruct (update_note_view note_id payload st Hplain Hp) as (st1 & -> & Hf & Hview).
  rewrite !list_notes_unfold. unfold find. rewrite Hf.
  destruct (fault st); [reflexivity|].
  destruct (filter_error re _); [reflexivity|]. simpl.
  pose proof (py_sort_related sort_key same_view same_view_sort_key _ _
                (filter_related same_view (matches re (build_filter tag q pinned)) _ _
                   (same_view_matches tag q pinned) Hview)) as Hsort.
  destruct Hsort as [r r' Hr|]; [|reflexivity].
  rewrite (serialize_all_related r r' Hr).
  destruct (serialize_all r); reflexivity.
Qed.
End UnreadFields.

Lemma unread_fields_do_not_show_witness :
  fst (list_notes substring_engine None None None
         (snd (update_note id_B (<[ "updated_at" := VInt 9 ]> {[ "id" := VStr "x" ]})
                 (Some store_ABC))))
    = fst (list_notes substring_engine None None None (Some store_ABC)).
Proof.
  apply (unread_fields_do_not_show substring_engine id_B
           (<[ "updated_at" := VInt 9 ]> {[ "id" := VStr "x" ]}) store_ABC None None None);
    [reflexivity|].
  intros key Hk. unfold listing_keys, schema_fields in Hk. simpl in Hk.
  repeat (apply elem_of_cons in Hk as [->|Hk]; [reflexivity|]).
  by apply elem_of_nil in Hk.
Defined.

(** ** What the driver refuses *)

(** An update whose payload holds something the driver cannot encode (an
    integer beyond 8 bytes, a key with a NUL character) never succeeds:
    with a reachable store it answers 500, whether or not a note has the
    identifier, and the stored records stay as they were. *)
Theorem unencodable_update_is_refused
    (note_id : string) (payload : gmap string value) (st : mongo) :
  fault st = None -> encodable (set_of payload) = false ->
  exists e db',
    update_note note_id payload (Some st) = (Raise (HTTPException 500 (Str e)), db') /\
    notes_of db' = Some (note st).
Proof.
  intros Hf Henc. rewrite update_note_unfold.
  destruct (ObjectId note_id) as [e|o]; [eauto|].
  unfold update_one. rewrite Hf, Henc. simpl. eauto.
Qed.

Lemma unencodable_update_is_refused_witness :
  exists e db',
    update_note id_B {[ "title" := VInt 9223372036854775808 ]} (Some store_ABC)
      = (Raise (HTTPException 500 (Str e)), db') /\
    notes_of db' = Some (note store_ABC).
Proof.
  apply (unencodable_update_is_refused id_B {[ "title" := VInt 9223372036854775808 ]}
           store_ABC); reflexivity.
Defined.
